(** * Agent-event confirmation and the meeting-transcription stub

    A shallow embedding of the two handlers of the server,
    [handlers/agent_confirm.ts] and [handlers/transcribe_meeting.ts],
    and the properties of the confirmation state machine and of the
    size-bucketed transcription responder.

    Layout: JavaScript values and thrown errors ([Js]), the record store
    the handlers talk to ([AgentEvent], [Task], [Store]), the two handlers
    ([AgentConfirm], [TranscribeMeeting]), then the lemmas. *)

From Stdlib Require Import ZArith QArith Ascii String.
From stdpp Require Import base option list strings pretty gmap.

Set Warnings "-register-all".
Local Open Scope Z_scope.
Local Open Scope string_scope.

(** ** JavaScript values *)

Module Js.

(** A [Date] object: a time value in milliseconds, or Invalid Date. *)
Inductive DateObj :=
| TimeValue (ms : Z)
| InvalidDate.

(** The values that flow through the handlers: what a jsonb column can
    hold (null, booleans, numbers, strings, arrays, objects), [undefined]
    for a property that is not there, and [Date] objects.  Numbers are the
    integers: ids, counts and time values are the only numbers the
    handlers compute with. *)
Inductive jsval :=
| VUndefined
| VNull
| VBool (b : bool)
| VNum (n : Z)
| VStr (s : string)
| VDate (d : DateObj)
| VArr (items : list jsval)
| VObj (fields : list (string * jsval)).

(** [Record<string, unknown>]. *)
Abbreviation object := (gmap string jsval).

(** Property read [o.k] / [o['k']]: [undefined] when the key is absent. *)
Definition get (o : object) (k : string) : jsval :=
  default VUndefined (o !! k).

(** ToBoolean. *)
Definition truthy (v : jsval) : bool :=
  match v with
  | VUndefined | VNull => false
  | VBool b => b
  | VNum n => negb (Z.eqb n 0)
  | VStr s => negb (String.eqb s "")
  | VDate _ | VArr _ | VObj _ => true
  end.

(** [a || b]. *)
Definition or (a b : jsval) : jsval := if truthy a then a else b.

(** What a [throw] carries: an [Error] instance with its message, or any
    other value. *)
Inductive thrown :=
| JsError (message : string)
| NonError (v : jsval).

(** The outcome of an async function: the promise rejects with what was
    thrown, or resolves with a value. *)
Inductive outcome (A : Type) :=
| Throw (e : thrown)
| Return (a : A).
Arguments Throw {A} e.
Arguments Return {A} a.

(** The message of the TypeError raised by a property read on
    [undefined] (the text is the engine's). *)
Definition TypeError_undefined : string :=
  "undefined is not an object".

(** What the handlers take from the runtime: the clock behind
    [new Date()] and the one-argument [Date] constructor. *)
Record Runtime := {
  now : Z;
  new_Date : jsval -> DateObj
}.

End Js.

Import Js.

(** ** Rows of the two tables *)

Module AgentEvent.
(** Modelled from the spec: the fields of an AgentEvent, a row of
    [agentEventsTable]; [schema] and [db/schema] are not among the
    sources.  [status] is the text of the status enum; [output] is [None]
    while the column is null. *)
Record t := {
  id : Z;
  workspace_id : Z;
  agent : string;
  action : string;
  input : object;
  status : string;
  output : option object
}.
End AgentEvent.

Module Task.
Inductive Priority := low | med | high.

(** Modelled from the spec: the fields of a Task, a row of [tasksTable];
    [db/schema] is not among the sources. *)
Record t := {
  id : Z;
  workspace_id : Z;
  title : string;
  description : option string;
  priority : Priority;
  due_at : option Z;
  status : string
}.

(** The object handed to [db.insert(tasksTable).values(...)]. *)
Record Values := {
  v_workspace_id : jsval;
  v_title : jsval;
  v_description : jsval;
  v_priority : jsval;
  v_due_at : jsval;
  v_status : string
}.
End Task.

(** ** The record store *)

Module Store.

(** Modelled from the spec: the Record Store, as the tables the handler
    reads and writes; the [db] module is not among the sources.  A table
    is the list of its rows. *)
Record Db := {
  agent_events : list AgentEvent.t;
  tasks : list Task.t;
  workspaces : list Z;        (* ids of the rows of the workspaces table *)
  tasks_id_seq : Z            (* last value of the serial of tasks.id *)
}.

(** [db.select().from(agentEventsTable).where(eq(agentEventsTable.id, k))] *)
Definition select_agent_events (db : Db) (k : Z) : list AgentEvent.t :=
  filter (λ r, AgentEvent.id r = k) (agent_events db).

Definition set_status_output (st : string) (out : object)
    (r : AgentEvent.t) : AgentEvent.t :=
  {| AgentEvent.id := AgentEvent.id r;
     AgentEvent.workspace_id := AgentEvent.workspace_id r;
     AgentEvent.agent := AgentEvent.agent r;
     AgentEvent.action := AgentEvent.action r;
     AgentEvent.input := AgentEvent.input r;
     AgentEvent.status := st;
     AgentEvent.output := Some out |}.

(** [db.update(agentEventsTable).set({status, output})
      .where(eq(agentEventsTable.id, k)).returning()]:
    the new table and the rows that were updated. *)
Definition update_agent_events (db : Db) (k : Z) (st : string) (out : object)
    : Db * list AgentEvent.t :=
  ({| agent_events :=
        (λ r, if decide (AgentEvent.id r = k)
              then set_status_output st out r else r) <$> agent_events db;
      tasks := tasks db;
      workspaces := workspaces db;
      tasks_id_seq := tasks_id_seq db |},
   set_status_output st out <$> select_agent_events db k).

(** Modelled from the spec: why the store refuses an insert into
    [tasksTable]; the database is not among the sources. *)
Inductive InsertFailure :=
| InvalidTimeValue                (* an Invalid Date cannot be serialised *)
| NotNullViolation (column : string)
| InvalidColumnValue (column : string)
| InvalidEnumValue (column : string)
| ForeignKeyViolation (column : string).

(** Modelled from the spec: the message of the error the store throws;
    the handler copies it and does not read it. *)
Definition failure_message (f : InsertFailure) : string :=
  match f with
  | InvalidTimeValue => "Invalid time value"
  | NotNullViolation c =>
      "null value in column " +:+ c +:+ " violates not-null constraint"
  | InvalidColumnValue c => "invalid input syntax for column " +:+ c
  | InvalidEnumValue c => "invalid input value for enum column " +:+ c
  | ForeignKeyViolation c =>
      "insert on table tasks violates foreign key constraint on " +:+ c
  end.

(** Modelled from the spec: the labels of the priority enum, low, med
    and high. *)
Definition parse_priority (s : string) : option Task.Priority :=
  if String.eqb s "low" then Some Task.low
  else if String.eqb s "med" then Some Task.med
  else if String.eqb s "high" then Some Task.high
  else None.

(** The store's checks run one after the other; the first refusal wins. *)
Notation "'check' x ← e ; k" :=
  (match e with inl f => inl f | inr x => k end)
  (at level 10, x pattern, e at level 100, k at level 200, only parsing).

(** Modelled from the spec: the column types of the Task table, as the
    checks an insert runs on each value; [db/schema] and the database are
    not among the sources.  A Task has an owning workspace, a title, an
    optional description, a priority among low, med and high (default
    med) and an optional due timestamp.  First, an integer column that
    must be set (the owning workspace). *)
Definition integer_not_null (c : string) (v : jsval) : InsertFailure + Z :=
  match v with
  | VNum n => inr n
  | VUndefined | VNull => inl (NotNullViolation c)
  | _ => inl (InvalidColumnValue c)
  end.

(** Modelled from the spec: a text column that must be set (the
    title). *)
Definition text_not_null (c : string) (v : jsval) : InsertFailure + string :=
  match v with
  | VStr s => inr s
  | VUndefined | VNull => inl (NotNullViolation c)
  | _ => inl (InvalidColumnValue c)
  end.

(** Modelled from the spec: a text column that may be null (the
    optional description). *)
Definition text_nullable (c : string) (v : jsval)
    : InsertFailure + option string :=
  match v with
  | VStr s => inr (Some s)
  | VUndefined | VNull => inr None
  | _ => inl (InvalidColumnValue c)
  end.

(** Modelled from the spec: the priority column, low, med or high, med
    when no value is given. *)
Definition priority_enum (c : string) (v : jsval)
    : InsertFailure + Task.Priority :=
  match v with
  | VUndefined => inr Task.med
  | VNull => inl (NotNullViolation c)
  | VStr s =>
      match parse_priority s with
      | Some p => inr p
      | None => inl (InvalidEnumValue c)
      end
  | _ => inl (InvalidEnumValue c)
  end.

(** Modelled from the spec: a timestamp column that may be null (the
    optional due date); an Invalid Date has no timestamp. *)
Definition timestamp_nullable (c : string) (v : jsval)
    : InsertFailure + option Z :=
  match v with
  | VDate (TimeValue ms) => inr (Some ms)
  | VDate InvalidDate => inl InvalidTimeValue
  | VUndefined | VNull => inr None
  | _ => inl (InvalidColumnValue c)
  end.

(** Modelled from the spec: the referential check of [workspace_id]
    (the violation raised for a nonexistent workspace). *)
Definition references_workspace (db : Db) (c : string) (w : Z)
    : InsertFailure + unit :=
  if decide (w ∈ workspaces db) then inr () else inl (ForeignKeyViolation c).

(** Modelled from the spec: the row an insert of [v] would add, with
    its generated id, or why it is refused: the values are converted
    column by column, then the constraint is checked. *)
Definition check_task_values (db : Db) (v : Task.Values)
    : InsertFailure + Task.t :=
  check due ← timestamp_nullable "due_at" (Task.v_due_at v);
  check w ← integer_not_null "workspace_id" (Task.v_workspace_id v);
  check ttl ← text_not_null "title" (Task.v_title v);
  check desc ← text_nullable "description" (Task.v_description v);
  check prio ← priority_enum "priority" (Task.v_priority v);
  check _ ← references_workspace db "workspace_id" w;
  inr {| Task.id := tasks_id_seq db + 1;
         Task.workspace_id := w;
         Task.title := ttl;
         Task.description := desc;
         Task.priority := prio;
         Task.due_at := due;
         Task.status := Task.v_status v |}.

(** Modelled from the spec: [insertTask(fields) -> Task], the inserted
    record with its generated id; [db.insert(tasksTable).values(v)
    .returning()] gives the inserted rows.  A refused insert throws an
    [Error] carrying the store's message and leaves the tables as they
    were. *)
Definition insert_task (db : Db) (v : Task.Values)
    : Db * outcome (list Task.t) :=
  match check_task_values db v with
  | inl f => (db, Throw (JsError (failure_message f)))
  | inr row =>
      ({| agent_events := agent_events db;
          tasks := tasks db ++ [row];
          workspaces := workspaces db;
          tasks_id_seq := Task.id row |},
       Return [row])
  end.

(** [findAgentEventById(id) -> AgentEvent | none]: the row a select by id
    yields first. *)
Definition find_agent_event (db : Db) (k : Z) : option AgentEvent.t :=
  head (select_agent_events db k).

End Store.

Import Store.

(** ** handlers/agent_confirm.ts *)

Module AgentConfirm.

Record AgentConfirmInput := {
  event_id : Z;
  approved : bool
}.

(** [execution_result] and [error] are optional: [None] is the field
    left out. *)
Record AgentConfirmResponse := {
  agent_event : AgentEvent.t;
  execution_result : option object;
  error : option string
}.

(** The values of lines 75-82, from the event's input. *)
Definition task_values (rt : Runtime) (taskInput : object) : Task.Values :=
  {| Task.v_workspace_id := get taskInput "workspace_id";
     Task.v_title := get taskInput "title";
     Task.v_description := Js.or (get taskInput "description") VNull;
     Task.v_priority := Js.or (get taskInput "priority") (VStr "med");
     Task.v_due_at :=
       if truthy (get taskInput "due_at")
       then VDate (new_Date rt (get taskInput "due_at"))
       else VNull;
     Task.v_status := "todo" |}.

(** [error instanceof Error ? error.message : 'Unknown error occurred'] *)
Definition error_message (e : thrown) : string :=
  match e with
  | JsError m => m
  | NonError _ => "Unknown error occurred"
  end.

(** The [create_task] branch, lines 65-99: the store after it, the
    execution result and the output data. *)
Definition execute_create_task (rt : Runtime) (db : Db)
    (existingEvent : AgentEvent.t) (outputData : object)
    : Db * object * object :=
  let caught (db' : Db) (e : thrown) :=
    let executionResult : object :=
      {[ "success" := VBool false; "error" := VStr (error_message e) ]} in
    (db', executionResult,
     <[ "execution_error" := get executionResult "error" ]> outputData) in
  match insert_task db (task_values rt (AgentEvent.input existingEvent)) with
  | (db', Return (newTask0 :: _)) =>
      (db',
       {[ "success" := VBool true;
          "created_task_id" := VNum (Task.id newTask0);
          "message" := VStr "Task created successfully" ]},
       <[ "task_id" := VNum (Task.id newTask0) ]>
         (<[ "executed_action" := VStr "task_created" ]> outputData))
  | (db', Return []) => caught db' (JsError TypeError_undefined)
  | (db', Throw e) => caught db' e
  end.

(** The rows a [returning()] gave, read at index 0 and copied into the
    response. *)
Definition respond (db : Db) (updatedEvent : list AgentEvent.t)
    (execution_result : option object)
    : Db * outcome AgentConfirmResponse :=
  match updatedEvent with
  | [] => (db, Throw (JsError TypeError_undefined))
  | updatedEvent0 :: _ =>
      (db, Return {| agent_event := updatedEvent0;
                     execution_result := execution_result;
                     error := None |})
  end.

(** The handler.  The outer [try]/[catch] logs what was thrown and throws
    it again: the outcome is that of the body. *)
Definition agentConfirm (rt : Runtime) (input : AgentConfirmInput) (db : Db)
    : Db * outcome AgentConfirmResponse :=
  match select_agent_events db (event_id input) with
  | [] =>
      (db, Throw (JsError ("Agent event with id " +:+ pretty (event_id input)
                           +:+ " not found")))
  | existingEvent :: _ =>
    if negb (String.eqb (AgentEvent.status existingEvent)
                        "awaiting_confirmation")
    then
      (db, Throw (JsError ("Agent event " +:+ pretty (event_id input)
                           +:+ " is not awaiting confirmation (current status: "
                           +:+ AgentEvent.status existingEvent +:+ ")")))
    else if negb (approved input)
    then
      let '(db1, updatedEvent) :=
        update_agent_events db (event_id input) "error"
          {[ "rejected" := VBool true;
             "rejected_at" := VDate (TimeValue (now rt));
             "reason" := VStr "User rejected proposal" ]} in
      respond db1 updatedEvent None
    else
      let outputData : object :=
        {[ "approved" := VBool true;
           "approved_at" := VDate (TimeValue (now rt)) ]} in
      let '(db1, executionResult, outputData) :=
        if String.eqb (AgentEvent.action existingEvent) "create_task"
        then execute_create_task rt db existingEvent outputData
        else
          (db,
           {[ "success" := VBool true;
              "message" := VStr ("Action " +:+ AgentEvent.action existingEvent
                                 +:+ " executed successfully") ]},
           <[ "executed_action" := VStr (AgentEvent.action existingEvent) ]>
             outputData) in
      let '(db2, updatedEvent) :=
        update_agent_events db1 (event_id input)
          (if truthy (get executionResult "success")
           then "executed" else "error")
          outputData in
      respond db2 updatedEvent (Some executionResult)
  end.

End AgentConfirm.

Import AgentConfirm.

(** ** handlers/transcribe_meeting.ts *)

Module TranscribeMeeting.

(** [workspace_id] is a number, here an integer; [None] is the property
    left out. *)
Record TranscribeMeetingInput := {
  audio_data : string;
  workspace_id : option Z
}.

Record TranscriptResponse := {
  partial_transcript : string;
  is_complete : bool
}.

Definition char_code (c : ascii) : Z := Z.of_N (N_of_ascii c).

Definition in_range (lo hi : ascii) (c : ascii) : bool :=
  (char_code lo <=? char_code c)%Z && (char_code c <=? char_code hi)%Z.

(** The class [[A-Za-z0-9+/]]. *)
Definition base64_class (c : ascii) : bool :=
  in_range "A"%char "Z"%char c || in_range "a"%char "z"%char c || in_range "0"%char "9"%char c
  || Ascii.eqb c "+"%char || Ascii.eqb c "/"%char.

(** What is left of [s] after the longest run of class characters. *)
Fixpoint skip_base64_class (s : string) : string :=
  match s with
  | String c r => if base64_class c then skip_base64_class r else s
  | EmptyString => s
  end.

(** [/^[A-Za-z0-9+/]+(=|==)?$/.test(s)].  The class does not contain [=],
    so the run of class characters the match takes is the longest one. *)
Definition base64Regex_test (s : string) : bool :=
  match s with
  | String c r =>
      base64_class c &&
      (let rest := skip_base64_class r in
       String.eqb rest "" || String.eqb rest "=" || String.eqb rest "==")
  | EmptyString => false
  end.

(** The 6-bit value of a character for the base64 decoder of [Buffer]:
    the standard alphabet and the two URL-safe characters. *)
Definition base64_value (c : ascii) : option Z :=
  if in_range "A"%char "Z"%char c then Some (char_code c - 65)
  else if in_range "a"%char "z"%char c then Some (char_code c - 97 + 26)
  else if in_range "0"%char "9"%char c then Some (char_code c - 48 + 52)
  else if Ascii.eqb c "+"%char || Ascii.eqb c "-"%char then Some 62
  else if Ascii.eqb c "/"%char || Ascii.eqb c "_"%char then Some 63
  else None.

(** The decoder reads up to the first [=] and passes over characters
    outside the alphabet. *)
Fixpoint base64_sextets (s : string) : list Z :=
  match s with
  | EmptyString => []
  | String c r =>
      if Ascii.eqb c "="%char then []
      else match base64_value c with
           | Some v => v :: base64_sextets r
           | None => base64_sextets r
           end
  end.

(** Four sextets give three bytes; a last group of three gives two bytes,
    of two gives one, and a lone sextet gives none. *)
Fixpoint base64_bytes (l : list Z) : list Z :=
  match l with
  | a :: b :: c :: d :: r =>
      Z.lor (Z.shiftl a 2) (Z.shiftr b 4)
      :: Z.lor (Z.shiftl (Z.land b 15) 4) (Z.shiftr c 2)
      :: Z.lor (Z.shiftl (Z.land c 3) 6) d
      :: base64_bytes r
  | [a; b; c] =>
      [Z.lor (Z.shiftl a 2) (Z.shiftr b 4);
       Z.lor (Z.shiftl (Z.land b 15) 4) (Z.shiftr c 2)]
  | [a; b] => [Z.lor (Z.shiftl a 2) (Z.shiftr b 4)]
  | _ => []
  end.

(** [Buffer.from(s, 'base64')]: it does not throw. *)
Definition Buffer_from_base64 (s : string) : list Z :=
  base64_bytes (base64_sextets s).

Definition text_small : string :=
  "Welcome to the meeting, today we will discuss...".

Definition text_medium : string :=
  "Welcome to the meeting, today we will discuss the quarterly results and upcoming project milestones. The team has been working hard on...".

Definition text_large : string :=
  "Welcome to the meeting, today we will discuss the quarterly results and upcoming project milestones. The team has been working hard on delivering key features and we need to review our progress. Let's start with the development update and then move to the marketing review.".

(** [audioBuffer.length / 1024]: a quotient of numbers, not an integer
    division.  The length is below 2^26 here and 1024 is a power of two,
    so the double is the exact rational. *)
Definition audioSizeKB (length : Z) : Q := inject_Z length / inject_Z 1024.

(** Lines 47-63: the transcript text and the completeness flag. *)
Definition simulate (length : Z) : string * bool :=
  if Qlt_le_dec (audioSizeKB length) (inject_Z 1) then (text_small, false)
  else if Qlt_le_dec (audioSizeKB length) (inject_Z 10) then (text_medium, false)
  else (text_large, true).

(** The wait of lines 43-44 delays the answer and does not change it: it
    has no counterpart here. *)
Definition transcribeMeeting (input : TranscribeMeetingInput)
    : outcome TranscriptResponse :=
  if String.eqb (audio_data input) ""
  then Throw (JsError "Audio data is required")
  else
    match workspace_id input with
    | None => Throw (JsError "Valid workspace ID is required")
    | Some ws =>
      if (ws =? 0)%Z || (ws <=? 0)%Z
      then Throw (JsError "Valid workspace ID is required")
      else if negb (base64Regex_test (audio_data input))
      then Throw (JsError "Invalid base64 audio data")
      else
        let audioBuffer := Buffer_from_base64 (audio_data input) in
        let length := Z.of_nat (List.length audioBuffer) in
        if (length <? 10)%Z
        then Throw (JsError "Audio data too small")
        else if (length >? 50 * 1024 * 1024)%Z
        then Throw (JsError "Audio data too large (max 50MB)")
        else
          let '(transcriptText, isComplete) := simulate length in
          let contextualPrefix := "[Workspace " +:+ pretty ws +:+ "] " in
          Return {| partial_transcript := contextualPrefix +:+ transcriptText;
                    is_complete := isComplete |}
    end.

End TranscribeMeeting.

Import TranscribeMeeting.

(** ** Sample data

    The rows the handler's tests insert (one workspace, proposals of the
    task and calendar agents), and two more proposals: one with a priority
    outside the enum, one with an empty description. *)

Module Demo.

Definition rt : Runtime :=
  {| now := 1700000000000;
     new_Date := λ v, match v with
                      | VNum n => TimeValue n
                      | _ => InvalidDate
                      end |}.

Definition event (k : Z) (agent action : string) (input : object)
    (status : string) : AgentEvent.t :=
  {| AgentEvent.id := k;
     AgentEvent.workspace_id := 1;
     AgentEvent.agent := agent;
     AgentEvent.action := action;
     AgentEvent.input := input;
     AgentEvent.status := status;
     AgentEvent.output := None |}.

Definition ev_create : AgentEvent.t :=
  event 1 "task_agent" "create_task"
    {[ "workspace_id" := VNum 1;
       "title" := VStr "Agent Created Task";
       "description" := VStr "Task created by agent";
       "priority" := VStr "high" ]}
    "awaiting_confirmation".

Definition ev_meeting : AgentEvent.t :=
  event 2 "calendar_agent" "schedule_meeting"
    {[ "title" := VStr "Team Meeting"; "duration" := VNum 60 ]}
    "awaiting_confirmation".

Definition ev_done : AgentEvent.t :=
  event 3 "task_agent" "create_task"
    {[ "title" := VStr "Test Task" ]}
    "executed".

Definition ev_no_workspace : AgentEvent.t :=
  event 4 "task_agent" "create_task"
    {[ "title" := VStr "Invalid Task"; "workspace_id" := VNum 99999 ]}
    "awaiting_confirmation".

Definition ev_urgent : AgentEvent.t :=
  event 5 "task_agent" "create_task"
    {[ "workspace_id" := VNum 1;
       "title" := VStr "Urgent Task";
       "priority" := VStr "urgent" ]}
    "awaiting_confirmation".

Definition ev_empty_description : AgentEvent.t :=
  event 6 "task_agent" "create_task"
    {[ "workspace_id" := VNum 1;
       "title" := VStr "Bare Task";
       "description" := VStr "" ]}
    "awaiting_confirmation".

Definition db : Db :=
  {| agent_events := [ev_create; ev_meeting; ev_done; ev_no_workspace;
                      ev_urgent; ev_empty_description];
     tasks := [];
     workspaces := [1];
     tasks_id_seq := 0 |}.

End Demo.

(** ** Vocabulary of the statements *)

(** [ev'] is [ev] with another status and output: a confirmation writes
    nothing else of the row. *)
Definition same_proposal (ev ev' : AgentEvent.t) : Prop :=
  AgentEvent.id ev' = AgentEvent.id ev
  ∧ AgentEvent.workspace_id ev' = AgentEvent.workspace_id ev
  ∧ AgentEvent.agent ev' = AgentEvent.agent ev
  ∧ AgentEvent.action ev' = AgentEvent.action ev
  ∧ AgentEvent.input ev' = AgentEvent.input ev.

(** Nothing but rows of the event table with id [k] differs between [db]
    and [db']. *)
Definition only_event_written (k : Z) (db db' : Db) : Prop :=
  tasks db' = tasks db
  ∧ workspaces db' = workspaces db
  ∧ tasks_id_seq db' = tasks_id_seq db
  ∧ length (agent_events db') = length (agent_events db)
  ∧ ∀ k', k' ≠ k → select_agent_events db' k' = select_agent_events db k'.

(** What the create_task strategy makes of the optional fields of an
    input: a description that is a non-empty string is kept, a falsy one
    (absent, null, the empty string) gives none. *)
Definition description_given (i : object) (desc : option string) : Prop :=
  match desc with
  | Some d => get i "description" = VStr d ∧ d ≠ ""
  | None => truthy (get i "description") = false
  end.

(** A priority named by the input, or med for a falsy one. *)
Definition priority_given (i : object) (prio : Task.Priority) : Prop :=
  (truthy (get i "priority") = false ∧ prio = Task.med)
  ∨ (∃ p, get i "priority" = VStr p ∧ parse_priority p = Some prio).

(** A due date the [Date] constructor accepts, or none for a falsy one. *)
Definition due_given (rt : Runtime) (i : object) (due : option Z) : Prop :=
  match due with
  | Some ms => truthy (get i "due_at") = true
               ∧ new_Date rt (get i "due_at") = TimeValue ms
  | None => truthy (get i "due_at") = false
  end.


(** *** The transcription stub *)

Fixpoint string_forall (P : ascii → bool) (s : string) : bool :=
  match s with
  | EmptyString => true
  | String c r => P c && string_forall P r
  end.

(** The language of the pattern: one or more characters of the class
    [[A-Za-z0-9+/]], then nothing, "=" or "==". *)
Definition matches_base64_pattern (s : string) : Prop :=
  ∃ body pad,
    s = body +:+ pad
    ∧ body ≠ ""
    ∧ string_forall base64_class body = true
    ∧ (pad = "" ∨ pad = "=" ∨ pad = "==").

(** The number of bytes the audio decodes to. *)
Definition decoded_length (i : TranscribeMeetingInput) : Z :=
  Z.of_nat (length (Buffer_from_base64 (audio_data i))).

Definition invalid_input (i : TranscribeMeetingInput) : Prop :=
  audio_data i = ""
  ∨ ¬ matches_base64_pattern (audio_data i)
  ∨ workspace_id i = None
  ∨ (∃ ws, workspace_id i = Some ws ∧ (ws ≤ 0)%Z)
  ∨ (decoded_length i < 10)%Z
  ∨ (decoded_length i > 50 * 1024 * 1024)%Z.

(** The three sizes of audio: below 1 KB, from 1 KB to below 10 KB, and
    10 KB or more. *)
Inductive Bucket := Small | Medium | Large.

Definition size_bucket (length : Z) : Bucket :=
  if (length <? 1024)%Z then Small
  else if (length <? 10 * 1024)%Z then Medium
  else Large.

Definition bucket_text (b : Bucket) : string :=
  match b with
  | Small => text_small
  | Medium => text_medium
  | Large => text_large
  end.

(** *** Outcomes of a confirmation *)


(** The output a rejection writes, and the output an approval starts
    from (lines 36-40 and 57-60). *)
Definition rejected_output (rt : Runtime) : object :=
  {[ "rejected" := VBool true;
     "rejected_at" := VDate (TimeValue (now rt));
     "reason" := VStr "User rejected proposal" ]}.

Definition approved_output (rt : Runtime) : object :=
  {[ "approved" := VBool true;
     "approved_at" := VDate (TimeValue (now rt)) ]}.

(** A run of confirmations, each with the runtime it is served by: the
    store they leave one after the other. *)
Definition confirm_all (calls : list (Runtime * AgentConfirmInput)) (db : Db)
    : Db :=
  foldl (λ db call, (agentConfirm call.1 call.2 db).1) db calls.

(** ** The record store *)

Section store.
Context (db : Db) (k : Z) (st : string) (out : object).

Lemma update_returning :
  (update_agent_events db k st out).2
  = set_status_output st out <$> select_agent_events db k.
Proof. reflexivity. Qed.

Lemma select_update_eq :
  select_agent_events (update_agent_events db k st out).1 k
  = set_status_output st out <$> select_agent_events db k.
Proof.
  unfold select_agent_events, update_agent_events; simpl.
  induction (agent_events db) as [|r rows IH]; [done|].
  rewrite fmap_cons, !filter_cons, IH.
  destruct (decide (AgentEvent.id r = k)) as [Hk|Hk]; simpl.
  - by rewrite decide_True.
  - by rewrite decide_False.
Qed.

Lemma select_update_ne k' :
  k' ≠ k →
  select_agent_events (update_agent_events db k st out).1 k'
  = select_agent_events db k'.
Proof.
  intros Hne. unfold select_agent_events, update_agent_events; simpl.
  induction (agent_events db) as [|r rows IH]; [done|].
  rewrite fmap_cons, !filter_cons, IH.
  destruct (decide (AgentEvent.id r = k)) as [Hk|Hk]; simpl; [|done].
  by rewrite !decide_False by congruence.
Qed.

Lemma update_only_event_written :
  only_event_written k db (update_agent_events db k st out).1.
Proof.
  repeat split; simpl; try done.
  - by rewrite length_fmap.
  - apply select_update_ne.
Qed.

Lemma find_update_eq ev :
  find_agent_event db k = Some ev →
  find_agent_event (update_agent_events db k st out).1 k
  = Some (set_status_output st out ev).
Proof.
  unfold find_agent_event. rewrite select_update_eq.
  destruct (select_agent_events db k); naive_solver.
Qed.

End store.

Lemma set_status_output_same_proposal st out ev :
  same_proposal ev (set_status_output st out ev).
Proof. by repeat split. Qed.

Lemma find_agent_event_id db k ev :
  find_agent_event db k = Some ev → AgentEvent.id ev = k.
Proof.
  unfold find_agent_event, select_agent_events. intros H.
  apply head_Some_elem_of in H. by apply list_elem_of_filter in H as [? _].
Qed.

(** An insert into the Task table leaves the event table alone. *)
Lemma insert_task_agent_events db v :
  agent_events (insert_task db v).1 = agent_events db.
Proof. unfold insert_task. by destruct (check_task_values db v). Qed.

(** ** The confirmation coordinator *)

(** The write that ends a confirmation: the event found is the one
    returned, with the status and output that were set. *)
Lemma respond_update db k st out er ev :
  find_agent_event db k = Some ev →
  respond (update_agent_events db k st out).1
          (update_agent_events db k st out).2 er
  = ((update_agent_events db k st out).1,
     Return {| agent_event := set_status_output st out ev;
               execution_result := er; error := None |}).
Proof.
  unfold find_agent_event. rewrite update_returning. intros Hfind.
  by destruct (select_agent_events db k) as [|e rest]; simplify_eq/=.
Qed.

(** The two guards passed, the handler is its decision branch. *)
Lemma agentConfirm_awaiting rt db k b ev :
  find_agent_event db k = Some ev →
  AgentEvent.status ev = "awaiting_confirmation" →
  agentConfirm rt {| event_id := k; approved := b |} db
  = if negb b then
      let '(db1, updatedEvent) :=
        update_agent_events db k "error"
          {[ "rejected" := VBool true;
             "rejected_at" := VDate (TimeValue (now rt));
             "reason" := VStr "User rejected proposal" ]} in
      respond db1 updatedEvent None
    else
      let outputData : object :=
        {[ "approved" := VBool true;
           "approved_at" := VDate (TimeValue (now rt)) ]} in
      let '(db1, executionResult, outputData) :=
        if String.eqb (AgentEvent.action ev) "create_task"
        then execute_create_task rt db ev outputData
        else
          (db,
           {[ "success" := VBool true;
              "message" := VStr ("Action " +:+ AgentEvent.action ev
                                 +:+ " executed successfully") ]},
           <[ "executed_action" := VStr (AgentEvent.action ev) ]> outputData) in
      let '(db2, updatedEvent) :=
        update_agent_events db1 k
          (if truthy (get executionResult "success")
           then "executed" else "error")
          outputData in
      respond db2 updatedEvent (Some executionResult).
Proof.
  unfold find_agent_event, agentConfirm; simpl. intros Hfind Hst.
  destruct (select_agent_events db k) as [|e rest]; simplify_eq/=.
  by rewrite Hst.
Qed.

Lemma find_agent_event_None db k :
  find_agent_event db k = None ↔
  ∀ ev, ev ∈ agent_events db → AgentEvent.id ev ≠ k.
Proof.
  unfold find_agent_event, select_agent_events. rewrite head_None. split.
  - intros Hnil ev Hin Hid.
    assert (ev ∈ filter (λ r, AgentEvent.id r = k) (agent_events db)) as Hf
      by (by apply list_elem_of_filter).
    rewrite Hnil in Hf. by apply not_elem_of_nil in Hf.
  - intros Hall. apply elem_of_nil_inv. intros ev Hin.
    apply list_elem_of_filter in Hin as [Hid Hin]. by apply (Hall ev).
Qed.

(** First guard: no row, the handler throws and writes nothing. *)
Lemma agentConfirm_guard_found rt db input :
  find_agent_event db (event_id input) = None →
  agentConfirm rt input db
  = (db, Throw (JsError ("Agent event with id " +:+ pretty (event_id input)
                         +:+ " not found"))).
Proof.
  unfold find_agent_event, agentConfirm. rewrite head_None. by intros ->.
Qed.

(** Second guard: a row in another status, the handler throws and writes
    nothing. *)
Lemma agentConfirm_guard_status rt db input ev :
  find_agent_event db (event_id input) = Some ev →
  AgentEvent.status ev ≠ "awaiting_confirmation" →
  agentConfirm rt input db
  = (db, Throw (JsError ("Agent event " +:+ pretty (event_id input)
                         +:+ " is not awaiting confirmation (current status: "
                         +:+ AgentEvent.status ev +:+ ")"))).
Proof.
  unfold find_agent_event, agentConfirm. intros Hfind Hst.
  destruct (select_agent_events db (event_id input)) as [|e rest];
    simplify_eq/=.
  apply String.eqb_neq in Hst. by rewrite Hst.
Qed.

(** *** The create_task strategy *)

Lemma insert_task_throws db v e :
  (insert_task db v).2 = Throw e →
  ∃ f, check_task_values db v = inl f ∧ e = JsError (failure_message f)
       ∧ insert_task db v = (db, Throw e).
Proof.
  unfold insert_task. destruct (check_task_values db v) as [f|row]; simpl.
  - intros [= <-]. by exists f.
  - done.
Qed.

Lemma insert_task_returns db v row :
  check_task_values db v = inr row →
  insert_task db v
  = ({| agent_events := agent_events db;
        tasks := tasks db ++ [row];
        workspaces := workspaces db;
        tasks_id_seq := Task.id row |},
     Return [row]).
Proof. unfold insert_task. by intros ->. Qed.

(** A nonexistent workspace: whatever the other values are, the insert is
    refused. *)
Lemma insert_task_unknown_workspace db v w :
  Task.v_workspace_id v = VNum w →
  w ∉ workspaces db →
  ∃ e, insert_task db v = (db, Throw e).
Proof.
  intros Hw Hnot. unfold insert_task, check_task_values.
  rewrite Hw; simpl. unfold references_workspace. rewrite decide_False by done.
  destruct (timestamp_nullable _ _); [by eexists|].
  destruct (text_not_null _ _); [by eexists|].
  destruct (text_nullable _ _); [by eexists|].
  destruct (priority_enum _ _); by eexists.
Qed.

Lemma execute_create_task_throws rt db ev outputData e :
  (insert_task db (task_values rt (AgentEvent.input ev))).2 = Throw e →
  execute_create_task rt db ev outputData
  = (db,
     {[ "success" := VBool false; "error" := VStr (error_message e) ]},
     <[ "execution_error" := VStr (error_message e) ]> outputData).
Proof.
  intros Hthrow. apply insert_task_throws in Hthrow as (f & _ & _ & Hins).
  unfold execute_create_task. by rewrite Hins.
Qed.

Lemma execute_create_task_returns rt db ev outputData row :
  check_task_values db (task_values rt (AgentEvent.input ev)) = inr row →
  execute_create_task rt db ev outputData
  = ({| agent_events := agent_events db;
        tasks := tasks db ++ [row];
        workspaces := workspaces db;
        tasks_id_seq := Task.id row |},
     {[ "success" := VBool true;
        "created_task_id" := VNum (Task.id row);
        "message" := VStr "Task created successfully" ]},
     <[ "task_id" := VNum (Task.id row) ]>
       (<[ "executed_action" := VStr "task_created" ]> outputData)).
Proof.
  intros Hrow. unfold execute_create_task.
  by rewrite (insert_task_returns _ _ _ Hrow).
Qed.

Lemma find_agent_event_ext db db' k :
  agent_events db' = agent_events db →
  find_agent_event db' k = find_agent_event db k.
Proof. unfold find_agent_event, select_agent_events. by intros ->. Qed.

Lemma check_task_values_valid rt db i w ttl desc prio due :
  get i "workspace_id" = VNum w →
  w ∈ workspaces db →
  get i "title" = VStr ttl →
  description_given i desc →
  priority_given i prio →
  due_given rt i due →
  check_task_values db (task_values rt i)
  = inr {| Task.id := tasks_id_seq db + 1;
           Task.workspace_id := w;
           Task.title := ttl;
           Task.description := desc;
           Task.priority := prio;
           Task.due_at := due;
           Task.status := "todo" |}.
Proof.
  intros Hw Hin Httl Hdesc Hprio Hdue.
  unfold check_task_values, task_values; simpl.
  rewrite Hw, Httl; simpl.
  assert (timestamp_nullable "due_at"
            (if truthy (get i "due_at")
             then VDate (new_Date rt (get i "due_at")) else VNull)
          = inr due) as ->.
  { destruct due as [ms|]; simpl in Hdue.
    - destruct Hdue as [-> ->]. done.
    - by rewrite Hdue. }
  assert (text_nullable "description" (Js.or (get i "description") VNull)
          = inr desc) as ->.
  { unfold Js.or. destruct desc as [d|]; simpl in Hdesc.
    - destruct Hdesc as [-> Hne]. simpl.
      apply String.eqb_neq in Hne. by rewrite Hne.
    - by rewrite Hdesc. }
  assert (priority_enum "priority" (Js.or (get i "priority") (VStr "med"))
          = inr prio) as ->.
  { unfold Js.or. destruct Hprio as [[-> ->]|(p & -> & Hp)]; [done|].
    simpl. destruct (String.eqb_spec p "") as [->|_]; [done|].
    simpl. by rewrite Hp. }
  unfold references_workspace. by rewrite decide_True.
Qed.

(** The terminal write of the approve branch, in the form the handler
    has it. *)
Lemma respond_after_update db k st out er ev :
  find_agent_event db k = Some ev →
  (let '(db2, updatedEvent) := update_agent_events db k st out in
   respond db2 updatedEvent er)
  = ((update_agent_events db k st out).1,
     Return {| agent_event := set_status_output st out ev;
               execution_result := er; error := None |}).
Proof. apply respond_update. Qed.

(** Approving a valid create_task proposal: the row inserted, the event
    written and the response. *)
Lemma agentConfirm_create_task_valid rt db k ev w ttl desc prio due :
  find_agent_event db k = Some ev →
  AgentEvent.status ev = "awaiting_confirmation" →
  AgentEvent.action ev = "create_task" →
  get (AgentEvent.input ev) "workspace_id" = VNum w →
  w ∈ workspaces db →
  get (AgentEvent.input ev) "title" = VStr ttl →
  description_given (AgentEvent.input ev) desc →
  priority_given (AgentEvent.input ev) prio →
  due_given rt (AgentEvent.input ev) due →
  ∃ db' ev' t,
    agentConfirm rt {| event_id := k; approved := true |} db
    = (db', Return {| agent_event := ev';
                      execution_result :=
                        Some {[ "success" := VBool true;
                                "created_task_id" := VNum (Task.id t);
                                "message" := VStr "Task created successfully" ]};
                      error := None |})
    ∧ find_agent_event db' k = Some ev'
    ∧ same_proposal ev ev'
    ∧ AgentEvent.status ev' = "executed"
    ∧ AgentEvent.output ev'
      = Some {[ "approved" := VBool true;
                "approved_at" := VDate (TimeValue (now rt));
                "executed_action" := VStr "task_created";
                "task_id" := VNum (Task.id t) ]}
    ∧ tasks db' = (tasks db ++ [t])%list
    ∧ workspaces db' = workspaces db
    ∧ Task.workspace_id t = w
    ∧ Task.title t = ttl
    ∧ Task.description t = desc
    ∧ Task.priority t = prio
    ∧ Task.due_at t = due
    ∧ Task.status t = "todo".
Proof.
  intros Hfind Hst Hact Hw Hin Httl Hdesc Hprio Hdue.
  pose proof (check_task_values_valid rt db _ _ _ _ _ _
                Hw Hin Httl Hdesc Hprio Hdue) as Hrow.
  rewrite (agentConfirm_awaiting _ _ _ _ _ Hfind Hst); simpl.
  rewrite Hact; simpl.
  rewrite (execute_create_task_returns _ _ _ _ _ Hrow).
  set (db1 := {| agent_events := agent_events db;
                 tasks := _; workspaces := _; tasks_id_seq := _ |}).
  assert (find_agent_event db1 k = Some ev) as Hfind1
    by (by rewrite (find_agent_event_ext db db1)).
  cbv zeta. cbn [truthy get default from_option].
  eexists _, _, _. split.
  { change (truthy (get _ "success")) with true. cbv iota.
    apply (respond_after_update db1 k "executed"); exact Hfind1. }
  split; [by apply find_update_eq|].
  split; [apply set_status_output_same_proposal|].
  by repeat split.
Qed.

(** Whatever the decision and the action, a confirmation of an awaiting
    event returns, and what it returns is the event written with one of
    the two terminal statuses; the event table is the one it found,
    updated at that id. *)
Lemma agentConfirm_awaiting_result rt db k b ev :
  find_agent_event db k = Some ev →
  AgentEvent.status ev = "awaiting_confirmation" →
  ∃ db1 st out er,
    (st = "executed" ∨ st = "error")
    ∧ agent_events db1 = agent_events db
    ∧ agentConfirm rt {| event_id := k; approved := b |} db
      = ((update_agent_events db1 k st out).1,
         Return {| agent_event := set_status_output st out ev;
                   execution_result := er; error := None |}).
Proof.
  intros Hfind Hst.
  rewrite (agentConfirm_awaiting _ _ _ _ _ Hfind Hst).
  destruct b; simpl.
  - destruct (String.eqb (AgentEvent.action ev) "create_task").
    + destruct (check_task_values db
                  (task_values rt (AgentEvent.input ev))) as [f|row] eqn:Hrow.
      * rewrite (execute_create_task_throws _ _ _ _
                   (JsError (failure_message f)))
          by (unfold insert_task; by rewrite Hrow).
        eexists db, "error", _, _. split; [by right|]. split; [done|].
        by apply (respond_after_update db k "error").
      * rewrite (execute_create_task_returns _ _ _ _ _ Hrow).
        set (db1 := {| agent_events := agent_events db;
                       tasks := _; workspaces := _; tasks_id_seq := _ |}).
        exists db1, "executed". eexists _, _. split; [by left|].
        split; [done|].
        apply (respond_after_update db1 k "executed").
        by rewrite (find_agent_event_ext db db1).
    + eexists db, "executed", _, _. split; [by left|]. split; [done|].
      by apply (respond_after_update db k "executed").
  - eexists db, "error", _, _. split; [by right|]. split; [done|].
    by apply (respond_after_update db k "error").
Qed.

(** ** The claims on the confirmation coordinator *)

(** C5. Confirming an [event_id] with no AgentEvent throws, for either
    value of [approved], an error whose message is
    "Agent event with id <id> not found" with the id in decimal, and the
    store is left as it was. *)
Theorem confirm_unknown_event rt db k b :
  find_agent_event db k = None →
  agentConfirm rt {| event_id := k; approved := b |} db
  = (db, Throw (JsError ("Agent event with id " +:+ pretty k +:+ " not found"))).
Proof. intros Hnone. by apply agentConfirm_guard_found. Qed.

Lemma confirm_unknown_event_witness :
  agentConfirm Demo.rt {| event_id := 99999; approved := true |} Demo.db
  = (Demo.db, Throw (JsError "Agent event with id 99999 not found")).
Proof. apply (confirm_unknown_event Demo.rt Demo.db 99999 true). reflexivity. Defined.

(** C6. Confirming an existing AgentEvent whose status is not
    awaiting_confirmation throws, for either value of [approved], an error
    whose message is "Agent event <id> is not awaiting confirmation
    (current status: <status>)", and the store, so the event's status and
    output too, is left as it was. *)
Theorem confirm_not_awaiting rt db k b ev :
  find_agent_event db k = Some ev →
  AgentEvent.status ev ≠ "awaiting_confirmation" →
  agentConfirm rt {| event_id := k; approved := b |} db
  = (db, Throw (JsError ("Agent event " +:+ pretty k
                         +:+ " is not awaiting confirmation (current status: "
                         +:+ AgentEvent.status ev +:+ ")"))).
Proof.
  intros Hfind Hst.
  by apply (agentConfirm_guard_status rt db {| event_id := k; approved := b |}).
Qed.

Lemma confirm_not_awaiting_witness :
  agentConfirm Demo.rt {| event_id := 3; approved := true |} Demo.db
  = (Demo.db,
     Throw (JsError
       "Agent event 3 is not awaiting confirmation (current status: executed)")).
Proof.
  apply (confirm_not_awaiting Demo.rt Demo.db 3 true Demo.ev_done).
  - reflexivity.
  - simpl. discriminate.
Defined.

(** C2. Rejecting an event that awaits confirmation writes status "error"
    and the output {rejected: true, rejected_at: now, reason: "User
    rejected proposal"} to it, and returns the updated event with no
    execution_result field; nothing else of the store changes. *)
Theorem reject_awaiting_event rt db k ev :
  find_agent_event db k = Some ev →
  AgentEvent.status ev = "awaiting_confirmation" →
  ∃ db' ev',
    agentConfirm rt {| event_id := k; approved := false |} db
    = (db', Return {| agent_event := ev';
                      execution_result := None;
                      error := None |})
    ∧ find_agent_event db' k = Some ev'
    ∧ same_proposal ev ev'
    ∧ AgentEvent.status ev' = "error"
    ∧ AgentEvent.output ev'
      = Some {[ "rejected" := VBool true;
                "rejected_at" := VDate (TimeValue (now rt));
                "reason" := VStr "User rejected proposal" ]}
    ∧ only_event_written k db db'.
Proof.
  intros Hfind Hst.
  rewrite (agentConfirm_awaiting _ _ _ _ _ Hfind Hst); simpl.
  eexists _, _. split.
  { by apply (respond_after_update db k "error"). }
  split; [by apply find_update_eq|].
  split; [apply set_status_output_same_proposal|].
  split; [done|]. split; [done|].
  apply update_only_event_written.
Qed.

Lemma reject_awaiting_event_witness :
  ∃ db' ev',
    agentConfirm Demo.rt {| event_id := 1; approved := false |} Demo.db
    = (db', Return {| agent_event := ev';
                      execution_result := None;
                      error := None |})
    ∧ find_agent_event db' 1 = Some ev'
    ∧ same_proposal Demo.ev_create ev'
    ∧ AgentEvent.status ev' = "error"
    ∧ AgentEvent.output ev'
      = Some {[ "rejected" := VBool true;
                "rejected_at" := VDate (TimeValue 1700000000000);
                "reason" := VStr "User rejected proposal" ]}
    ∧ only_event_written 1 Demo.db db'.
Proof.
  apply (reject_awaiting_event Demo.rt Demo.db 1 Demo.ev_create); reflexivity.
Defined.

(** C7. Approving an awaiting event whose action is not "create_task"
    writes nothing but the event itself, and yields status "executed",
    an output with executed_action equal to the action, and the
    execution_result {success: true, message: "Action <action> executed
    successfully"}. *)
Theorem approve_other_action rt db k ev :
  find_agent_event db k = Some ev →
  AgentEvent.status ev = "awaiting_confirmation" →
  AgentEvent.action ev ≠ "create_task" →
  ∃ db' ev',
    agentConfirm rt {| event_id := k; approved := true |} db
    = (db', Return {| agent_event := ev';
                      execution_result :=
                        Some {[ "success" := VBool true;
                                "message" :=
                                  VStr ("Action " +:+ AgentEvent.action ev
                                        +:+ " executed successfully") ]};
                      error := None |})
    ∧ find_agent_event db' k = Some ev'
    ∧ same_proposal ev ev'
    ∧ AgentEvent.status ev' = "executed"
    ∧ AgentEvent.output ev'
      = Some {[ "approved" := VBool true;
                "approved_at" := VDate (TimeValue (now rt));
                "executed_action" := VStr (AgentEvent.action ev) ]}
    ∧ only_event_written k db db'.
Proof.
  intros Hfind Hst Hact.
  rewrite (agentConfirm_awaiting _ _ _ _ _ Hfind Hst); simpl.
  apply String.eqb_neq in Hact. rewrite Hact.
  eexists _, _. split.
  { by apply (respond_after_update db k "executed"). }
  split; [by apply find_update_eq|].
  split; [apply set_status_output_same_proposal|].
  split; [done|]. split; [done|].
  apply update_only_event_written.
Qed.

Lemma approve_other_action_witness :
  ∃ db' ev',
    agentConfirm Demo.rt {| event_id := 2; approved := true |} Demo.db
    = (db', Return {| agent_event := ev';
                      execution_result :=
                        Some {[ "success" := VBool true;
                                "message" :=
                                  VStr "Action schedule_meeting executed successfully" ]};
                      error := None |})
    ∧ find_agent_event db' 2 = Some ev'
    ∧ same_proposal Demo.ev_meeting ev'
    ∧ AgentEvent.status ev' = "executed"
    ∧ AgentEvent.output ev'
      = Some {[ "approved" := VBool true;
                "approved_at" := VDate (TimeValue 1700000000000);
                "executed_action" := VStr "schedule_meeting" ]}
    ∧ only_event_written 2 Demo.db db'.
Proof.
  apply (approve_other_action Demo.rt Demo.db 2 Demo.ev_meeting).
  - reflexivity.
  - reflexivity.
  - simpl. discriminate.
Defined.

(** A call that returns was a call on an event that awaited
    confirmation. *)
Lemma agentConfirm_returns_only_awaiting rt input db db' r :
  agentConfirm rt input db = (db', Return r) →
  ∃ ev, find_agent_event db (event_id input) = Some ev
        ∧ AgentEvent.status ev = "awaiting_confirmation".
Proof.
  intros Hret.
  destruct (find_agent_event db (event_id input)) as [ev|] eqn:Hfind.
  - exists ev. split; [done|].
    destruct (decide (AgentEvent.status ev = "awaiting_confirmation"))
      as [|Hne]; [done|].
    by rewrite (agentConfirm_guard_status _ _ _ _ Hfind Hne) in Hret.
  - by rewrite (agentConfirm_guard_found _ _ _ Hfind) in Hret.
Qed.

(** C3. When the insert of the Task is refused (a nonexistent
    workspace_id, for one), approving a create_task proposal does not
    throw: it returns, the event is written with status "error" and an
    output that has execution_error next to approved and approved_at, the
    execution_result is {success: false, error: <message>}, and no Task is
    created. *)
Theorem approve_create_task_insert_fails rt db k ev e :
  find_agent_event db k = Some ev →
  AgentEvent.status ev = "awaiting_confirmation" →
  AgentEvent.action ev = "create_task" →
  (insert_task db (task_values rt (AgentEvent.input ev))).2 = Throw e →
  ∃ db' ev',
    agentConfirm rt {| event_id := k; approved := true |} db
    = (db', Return {| agent_event := ev';
                      execution_result :=
                        Some {[ "success" := VBool false;
                                "error" := VStr (error_message e) ]};
                      error := None |})
    ∧ find_agent_event db' k = Some ev'
    ∧ same_proposal ev ev'
    ∧ AgentEvent.status ev' = "error"
    ∧ AgentEvent.output ev'
      = Some {[ "approved" := VBool true;
                "approved_at" := VDate (TimeValue (now rt));
                "execution_error" := VStr (error_message e) ]}
    ∧ only_event_written k db db'.
Proof.
  intros Hfind Hst Hact Hthrow.
  rewrite (agentConfirm_awaiting _ _ _ _ _ Hfind Hst); simpl.
  rewrite Hact; simpl.
  rewrite (execute_create_task_throws _ _ _ _ _ Hthrow).
  eexists _, _. split.
  { by apply (respond_after_update db k "error"). }
  split; [by apply find_update_eq|].
  split; [apply set_status_output_same_proposal|].
  split; [done|]. split; [done|].
  apply update_only_event_written.
Qed.

Lemma approve_create_task_insert_fails_witness :
  ∃ db' ev',
    agentConfirm Demo.rt {| event_id := 4; approved := true |} Demo.db
    = (db', Return {| agent_event := ev';
                      execution_result :=
                        Some {[ "success" := VBool false;
                                "error" := VStr "insert on table tasks violates foreign key constraint on workspace_id" ]};
                      error := None |})
    ∧ find_agent_event db' 4 = Some ev'
    ∧ same_proposal Demo.ev_no_workspace ev'
    ∧ AgentEvent.status ev' = "error"
    ∧ AgentEvent.output ev'
      = Some {[ "approved" := VBool true;
                "approved_at" := VDate (TimeValue 1700000000000);
                "execution_error" := VStr "insert on table tasks violates foreign key constraint on workspace_id" ]}
    ∧ only_event_written 4 Demo.db db'.
Proof.
  apply (approve_create_task_insert_fails Demo.rt Demo.db 4 Demo.ev_no_workspace
           (JsError (failure_message (ForeignKeyViolation "workspace_id"))));
    reflexivity.
Defined.

(** C4. A confirmation of an awaiting event completes and leaves the
    event in one terminal status, "executed" or "error"; from then on a
    confirm call on the same event_id, with either value of [approved],
    throws the "not awaiting confirmation" error and leaves the store as
    it is: nothing is executed or written a second time. *)
Theorem confirm_once rt db k b ev :
  find_agent_event db k = Some ev →
  AgentEvent.status ev = "awaiting_confirmation" →
  ∃ db' r,
    agentConfirm rt {| event_id := k; approved := b |} db = (db', Return r)
    ∧ same_proposal ev (agent_event r)
    ∧ (AgentEvent.status (agent_event r) = "executed"
       ∨ AgentEvent.status (agent_event r) = "error")
    ∧ find_agent_event db' k = Some (agent_event r)
    ∧ ∀ rt' b',
        agentConfirm rt' {| event_id := k; approved := b' |} db'
        = (db', Throw (JsError
             ("Agent event " +:+ pretty k
              +:+ " is not awaiting confirmation (current status: "
              +:+ AgentEvent.status (agent_event r) +:+ ")"))).
Proof.
  intros Hfind Hst.
  destruct (agentConfirm_awaiting_result rt db k b ev Hfind Hst)
    as (db1 & st & out & er & Hterm & Hev & ->).
  assert (find_agent_event (update_agent_events db1 k st out).1 k
          = Some (set_status_output st out ev)) as Hfind'.
  { apply find_update_eq. by rewrite (find_agent_event_ext db db1). }
  eexists _, _. split; [reflexivity|]. simpl.
  split; [apply set_status_output_same_proposal|].
  split; [done|]. split; [done|].
  intros rt' b'.
  apply (agentConfirm_guard_status rt' _
           {| event_id := k; approved := b' |} _ Hfind').
  simpl. by destruct Hterm as [-> | ->].
Qed.

Lemma confirm_once_witness :
  ∃ db' r,
    agentConfirm Demo.rt {| event_id := 1; approved := true |} Demo.db
    = (db', Return r)
    ∧ same_proposal Demo.ev_create (agent_event r)
    ∧ (AgentEvent.status (agent_event r) = "executed"
       ∨ AgentEvent.status (agent_event r) = "error")
    ∧ find_agent_event db' 1 = Some (agent_event r)
    ∧ ∀ rt' b',
        agentConfirm rt' {| event_id := 1; approved := b' |} db'
        = (db', Throw (JsError
             ("Agent event " +:+ pretty 1
              +:+ " is not awaiting confirmation (current status: "
              +:+ AgentEvent.status (agent_event r) +:+ ")"))).
Proof.
  apply (confirm_once Demo.rt Demo.db 1 true Demo.ev_create); reflexivity.
Defined.

(** C1, as the code has it. Approving an awaiting create_task proposal
    whose task fields are valid (an existing workspace_id, a title, the
    optional fields well formed) returns the event with status "executed",
    an output with executed_action "task_created" and task_id the id of
    the inserted Task, and the execution_result {success: true,
    created_task_id: <that id>, message: "Task created successfully"};
    one Task is added, with the input's title, the input's priority (med
    when it names none), status "todo", and the input's description when
    that is a non-empty string, no description otherwise. *)
Theorem approve_valid_create_task rt db k ev w ttl desc prio due :
  find_agent_event db k = Some ev →
  AgentEvent.status ev = "awaiting_confirmation" →
  AgentEvent.action ev = "create_task" →
  get (AgentEvent.input ev) "workspace_id" = VNum w →
  w ∈ workspaces db →
  get (AgentEvent.input ev) "title" = VStr ttl →
  description_given (AgentEvent.input ev) desc →
  priority_given (AgentEvent.input ev) prio →
  due_given rt (AgentEvent.input ev) due →
  ∃ db' ev' t,
    agentConfirm rt {| event_id := k; approved := true |} db
    = (db', Return {| agent_event := ev';
                      execution_result :=
                        Some {[ "success" := VBool true;
                                "created_task_id" := VNum (Task.id t);
                                "message" := VStr "Task created successfully" ]};
                      error := None |})
    ∧ find_agent_event db' k = Some ev'
    ∧ same_proposal ev ev'
    ∧ AgentEvent.status ev' = "executed"
    ∧ AgentEvent.output ev'
      = Some {[ "approved" := VBool true;
                "approved_at" := VDate (TimeValue (now rt));
                "executed_action" := VStr "task_created";
                "task_id" := VNum (Task.id t) ]}
    ∧ tasks db' = (tasks db ++ [t])%list
    ∧ workspaces db' = workspaces db
    ∧ Task.workspace_id t = w
    ∧ Task.title t = ttl
    ∧ Task.description t = desc
    ∧ Task.priority t = prio
    ∧ Task.due_at t = due
    ∧ Task.status t = "todo".
Proof. apply agentConfirm_create_task_valid. Qed.

Lemma approve_valid_create_task_witness :
  ∃ db' ev' t,
    agentConfirm Demo.rt {| event_id := 1; approved := true |} Demo.db
    = (db', Return {| agent_event := ev';
                      execution_result :=
                        Some {[ "success" := VBool true;
                                "created_task_id" := VNum (Task.id t);
                                "message" := VStr "Task created successfully" ]};
                      error := None |})
    ∧ find_agent_event db' 1 = Some ev'
    ∧ same_proposal Demo.ev_create ev'
    ∧ AgentEvent.status ev' = "executed"
    ∧ AgentEvent.output ev'
      = Some {[ "approved" := VBool true;
                "approved_at" := VDate (TimeValue 1700000000000);
                "executed_action" := VStr "task_created";
                "task_id" := VNum (Task.id t) ]}
    ∧ tasks db' = (tasks Demo.db ++ [t])%list
    ∧ workspaces db' = workspaces Demo.db
    ∧ Task.workspace_id t = 1
    ∧ Task.title t = "Agent Created Task"
    ∧ Task.description t = Some "Task created by agent"
    ∧ Task.priority t = Task.high
    ∧ Task.due_at t = None
    ∧ Task.status t = "todo".
Proof.
  apply (approve_valid_create_task Demo.rt Demo.db 1 Demo.ev_create 1
           "Agent Created Task" (Some "Task created by agent") Task.high None).
  - reflexivity.
  - reflexivity.
  - reflexivity.
  - reflexivity.
  - simpl. apply list_elem_of_In. simpl. by left.
  - reflexivity.
  - simpl. split; [reflexivity | discriminate].
  - right. exists "high". split; reflexivity.
  - reflexivity.
Defined.

(** C1 as stated fails where the input's description is the empty
    string: the proposal is valid and is executed, and the Task inserted
    has no description (null), not the input's. *)
Lemma create_task_empty_description_counterexample :
  find_agent_event Demo.db 6 = Some Demo.ev_empty_description
  ∧ AgentEvent.status Demo.ev_empty_description = "awaiting_confirmation"
  ∧ AgentEvent.action Demo.ev_empty_description = "create_task"
  ∧ get (AgentEvent.input Demo.ev_empty_description) "workspace_id" = VNum 1
  ∧ 1 ∈ workspaces Demo.db
  ∧ get (AgentEvent.input Demo.ev_empty_description) "title" = VStr "Bare Task"
  ∧ get (AgentEvent.input Demo.ev_empty_description) "description" = VStr ""
  ∧ ∃ db' r t,
      agentConfirm Demo.rt {| event_id := 6; approved := true |} Demo.db
      = (db', Return r)
      ∧ AgentEvent.status (agent_event r) = "executed"
      ∧ tasks db' = (tasks Demo.db ++ [t])%list
      ∧ Task.title t = "Bare Task"
      ∧ Task.description t = None
      ∧ Task.description t ≠ Some "".
Proof.
  repeat (split; [reflexivity || (apply list_elem_of_In; simpl; by left)|]).
  eexists _, _, _. split; [reflexivity|]. simpl.
  repeat (split; [reflexivity|]). discriminate.
Qed.

(** C8, as the code has it. In an approved create_task confirmation
    with the other task fields valid, a priority that is absent or falsy
    (null, false, 0, the empty string) gives a Task of priority med and the
    confirmation ends in status "executed"; any other priority value is
    handed to the insert as it is, with no default. *)
Theorem create_task_priority_default rt db k ev w ttl desc due :
  find_agent_event db k = Some ev →
  AgentEvent.status ev = "awaiting_confirmation" →
  AgentEvent.action ev = "create_task" →
  get (AgentEvent.input ev) "workspace_id" = VNum w →
  w ∈ workspaces db →
  get (AgentEvent.input ev) "title" = VStr ttl →
  description_given (AgentEvent.input ev) desc →
  due_given rt (AgentEvent.input ev) due →
  (truthy (get (AgentEvent.input ev) "priority") = false →
   ∃ db' r t,
     agentConfirm rt {| event_id := k; approved := true |} db = (db', Return r)
     ∧ AgentEvent.status (agent_event r) = "executed"
     ∧ tasks db' = (tasks db ++ [t])%list
     ∧ Task.priority t = Task.med)
  ∧ (truthy (get (AgentEvent.input ev) "priority") = true →
     Task.v_priority (task_values rt (AgentEvent.input ev))
     = get (AgentEvent.input ev) "priority").
Proof.
  intros Hfind Hst Hact Hw Hin Httl Hdesc Hdue. split.
  - intros Hfalsy.
    destruct (agentConfirm_create_task_valid rt db k ev w ttl desc Task.med due)
      as (db' & ev' & t & Hret & _ & _ & Hexec & _ & Htasks & _ & _ & _ & _
          & Hprio & _); try done.
    { by left. }
    eexists db', _, t. split; [exact Hret|]. by simpl.
  - intros Htruthy. unfold task_values, Js.or; simpl. by rewrite Htruthy.
Qed.

Lemma create_task_priority_default_witness :
  (truthy (get (AgentEvent.input Demo.ev_empty_description) "priority") = false →
   ∃ db' r t,
     agentConfirm Demo.rt {| event_id := 6; approved := true |} Demo.db
     = (db', Return r)
     ∧ AgentEvent.status (agent_event r) = "executed"
     ∧ tasks db' = (tasks Demo.db ++ [t])%list
     ∧ Task.priority t = Task.med)
  ∧ (truthy (get (AgentEvent.input Demo.ev_empty_description) "priority") = true →
     Task.v_priority (task_values Demo.rt (AgentEvent.input Demo.ev_empty_description))
     = get (AgentEvent.input Demo.ev_empty_description) "priority").
Proof.
  apply (create_task_priority_default Demo.rt Demo.db 6
           Demo.ev_empty_description 1 "Bare Task" None None).
  - reflexivity.
  - reflexivity.
  - reflexivity.
  - reflexivity.
  - simpl. apply list_elem_of_In. simpl. by left.
  - reflexivity.
  - reflexivity.
  - reflexivity.
Defined.

(** C8 as stated fails for a priority outside low, med and high that is
    not falsy: "urgent" is not replaced by med; it reaches the insert,
    which refuses it, and the confirmation ends in status "error" with no
    Task. *)
Lemma create_task_invalid_priority_counterexample :
  find_agent_event Demo.db 5 = Some Demo.ev_urgent
  ∧ AgentEvent.status Demo.ev_urgent = "awaiting_confirmation"
  ∧ AgentEvent.action Demo.ev_urgent = "create_task"
  ∧ get (AgentEvent.input Demo.ev_urgent) "priority" = VStr "urgent"
  ∧ parse_priority "urgent" = None
  ∧ Task.v_priority (task_values Demo.rt (AgentEvent.input Demo.ev_urgent))
    = VStr "urgent"
  ∧ ∃ db' r,
      agentConfirm Demo.rt {| event_id := 5; approved := true |} Demo.db
      = (db', Return r)
      ∧ AgentEvent.status (agent_event r) = "error"
      ∧ tasks db' = tasks Demo.db.
Proof.
  repeat (split; [reflexivity|]).
  eexists _, _. split; [reflexivity|]. by simpl.
Qed.

(** ** The transcription stub *)

(** *** The pattern *)

Lemma skip_base64_class_split r :
  ∃ body, r = body +:+ skip_base64_class r
          ∧ string_forall base64_class body = true.
Proof.
  induction r as [|c r (body & Hr & Hall)]; simpl.
  - by exists "".
  - destruct (base64_class c) eqn:Hc.
    + exists (String c body). split.
      * change (String c r = String c (body +:+ skip_base64_class r)).
        by f_equal.
      * simpl. by rewrite Hc, Hall.
    + by exists "".
Qed.

Lemma skip_base64_class_app body pad :
  string_forall base64_class body = true →
  (pad = "" ∨ pad = "=" ∨ pad = "==") →
  skip_base64_class (body +:+ pad) = pad.
Proof.
  intros Hall Hpad. induction body as [|c body IH]; simpl in *.
  - by destruct Hpad as [-> | [-> | ->]].
  - apply andb_true_iff in Hall as [Hc Hall]. rewrite Hc. by apply IH.
Qed.

(** The test of the handler accepts the language of the pattern. *)
Lemma base64Regex_test_spec s :
  base64Regex_test s = true ↔ matches_base64_pattern s.
Proof.
  split.
  - destruct s as [|c r]; simpl; [done|].
    intros [Hc Hrest]%andb_true_iff.
    destruct (skip_base64_class_split r) as (body & Hr & Hall).
    exists (String c body), (skip_base64_class r).
    split; [change (String c r = String c (body +:+ skip_base64_class r));
            by f_equal|].
    split; [done|]. split; [simpl; by rewrite Hc, Hall|].
    apply orb_true_iff in Hrest as [Hrest|Hrest];
      [apply orb_true_iff in Hrest as [Hrest|Hrest]|];
      apply String.eqb_eq in Hrest; auto.
  - intros (body & pad & -> & Hne & Hall & Hpad).
    destruct body as [|c body]; [done|]. simpl in *.
    apply andb_true_iff in Hall as [Hc Hall]. rewrite Hc; simpl.
    rewrite (skip_base64_class_app _ _ Hall Hpad).
    by destruct Hpad as [-> | [-> | ->]].
Qed.

(** *** The decoder *)

(** Every four sextets give three bytes, and the rest of the division
    gives the bytes of the last group. *)
Lemma base64_bytes_length l :
  Z.of_nat (length (base64_bytes l)) = (3 * Z.of_nat (length l) / 4)%Z.
Proof.
  assert (∀ n l, (length l ≤ n)%nat →
            Z.of_nat (length (base64_bytes l))
            = (3 * Z.of_nat (length l) / 4)%Z) as Hgen.
  { clear l. induction n as [|n IH]; intros l Hlen.
    - by destruct l; [|simpl in Hlen; lia].
    - destruct l as [|a [|b [|c [|d r]]]]; try done.
      cbn [base64_bytes length].
      rewrite !Nat2Z.inj_succ, (IH r) by (simpl in Hlen; lia).
      set (m := Z.of_nat (length r)).
      replace (3 * Z.succ (Z.succ (Z.succ (Z.succ m))))%Z
        with (3 * m + 3 * 4)%Z by lia.
      rewrite Z.div_add by lia. lia. }
  by apply (Hgen (length l)).
Qed.

Lemma base64_class_value c :
  base64_class c = true →
  Ascii.eqb c "="%char = false ∧ is_Some (base64_value c).
Proof.
  destruct c as [[] [] [] [] [] [] [] []]; vm_compute;
    intros H; try discriminate H; split; eauto.
Qed.

Lemma base64_sextets_pattern body pad :
  string_forall base64_class body = true →
  (pad = "" ∨ pad = "=" ∨ pad = "==") →
  length (base64_sextets (body +:+ pad)) = String.length body.
Proof.
  intros Hall Hpad. induction body as [|c body IH].
  - by destruct Hpad as [-> | [-> | ->]].
  - simpl in Hall. apply andb_true_iff in Hall as [Hc Hall].
    destruct (base64_class_value c Hc) as [Hne [v Hv]].
    change (String c body +:+ pad) with (String c (body +:+ pad)).
    cbn [base64_sextets String.length]. rewrite Hne, Hv.
    cbn [length]. by rewrite IH.
Qed.

(** The audio of an accepted string: three bytes for every four
    characters before the padding, rounded down. *)
Lemma decoded_length_pattern body pad ws :
  string_forall base64_class body = true →
  (pad = "" ∨ pad = "=" ∨ pad = "==") →
  decoded_length {| audio_data := body +:+ pad; workspace_id := ws |}
  = (3 * Z.of_nat (String.length body) / 4)%Z.
Proof.
  intros Hall Hpad. unfold decoded_length, Buffer_from_base64; simpl.
  by rewrite base64_bytes_length, (base64_sextets_pattern _ _ Hall Hpad).
Qed.

Example decode_ABC : Buffer_from_base64 "QUJD" = [65; 66; 67]%Z.
Proof. reflexivity. Qed.

Example decode_AB : Buffer_from_base64 "QUI=" = [65; 66]%Z.
Proof. reflexivity. Qed.

Example decode_A : Buffer_from_base64 "QQ==" = [65]%Z.
Proof. reflexivity. Qed.

Example decode_unpadded : Buffer_from_base64 "QUJDQ" = [65; 66; 67]%Z.
Proof. reflexivity. Qed.

Example pattern_rejects_inner_padding : base64Regex_test "QQ==QQ" = false.
Proof. reflexivity. Qed.

Example pattern_rejects_three_pads : base64Regex_test "QQ===" = false.
Proof. reflexivity. Qed.

(** *** The size buckets *)

Lemma audioSizeKB_lt length n :
  (audioSizeKB length < inject_Z n)%Q ↔ (length < n * 1024)%Z.
Proof. unfold audioSizeKB, Qlt, Qdiv, Qmult, Qinv, inject_Z; simpl. lia. Qed.

Lemma audioSizeKB_ge length n :
  (inject_Z n <= audioSizeKB length)%Q ↔ (n * 1024 ≤ length)%Z.
Proof. unfold audioSizeKB, Qle, Qdiv, Qmult, Qinv, inject_Z; simpl. lia. Qed.

Lemma simulate_bucket length :
  simulate length
  = (bucket_text (size_bucket length), bool_decide (10 * 1024 ≤ length)%Z).
Proof.
  unfold simulate, size_bucket.
  destruct (Qlt_le_dec _ (inject_Z 1)) as [H1|H1].
  { pose proof (proj1 (audioSizeKB_lt length 1) H1) as Hlt.
    destruct (Z.ltb_spec length 1024); [|lia]. simpl.
    rewrite bool_decide_eq_false_2; [done|lia]. }
  pose proof (proj1 (audioSizeKB_ge length 1) H1) as Hge.
  destruct (Z.ltb_spec length 1024); [lia|].
  destruct (Qlt_le_dec _ (inject_Z 10)) as [H10|H10].
  - pose proof (proj1 (audioSizeKB_lt length 10) H10) as Hlt.
    destruct (Z.ltb_spec length (10 * 1024)); [|lia]. simpl.
    rewrite bool_decide_eq_false_2; [done|lia].
  - pose proof (proj1 (audioSizeKB_ge length 10) H10) as Hge10.
    destruct (Z.ltb_spec length (10 * 1024)); [lia|]. simpl.
    rewrite bool_decide_eq_true_2; [done|lia].
Qed.

Lemma bool_decide_large length :
  bool_decide (10 * 1024 ≤ length)%Z
  = match size_bucket length with Large => true | _ => false end.
Proof.
  unfold size_bucket.
  destruct (Z.ltb_spec length 1024);
    [|destruct (Z.ltb_spec length (10 * 1024))];
    (rewrite bool_decide_eq_false_2; [done|lia])
    || (rewrite bool_decide_eq_true_2; [done|lia]).
Qed.

(** *** The handler *)

Lemma append_assoc (a b c : string) : (a +:+ b) +:+ c = a +:+ (b +:+ c).
Proof.
  induction a as [|x a IH]; [done|].
  change (String x ((a +:+ b) +:+ c) = String x (a +:+ (b +:+ c))).
  by rewrite IH.
Qed.

(** The handler on every input: it throws on an invalid one, and on any
    other it returns the workspace prefix followed by the text of the
    size bucket. *)
Lemma transcribeMeeting_cases i :
  (invalid_input i ∧ ∃ e, transcribeMeeting i = Throw e)
  ∨ (¬ invalid_input i
     ∧ ∃ ws, workspace_id i = Some ws
       ∧ transcribeMeeting i
         = Return {| partial_transcript :=
                       "[Workspace " +:+ pretty ws +:+ "] "
                       +:+ bucket_text (size_bucket (decoded_length i));
                     is_complete :=
                       bool_decide (10 * 1024 ≤ decoded_length i)%Z |}).
Proof.
  unfold transcribeMeeting, invalid_input.
  fold (decoded_length i).
  destruct (String.eqb_spec (audio_data i) "") as [Hempty|Hne].
  { left. split; [by left | by eexists]. }
  destruct (workspace_id i) as [ws|] eqn:Hws.
  2:{ left. split; [by right; right; left | by eexists]. }
  destruct ((ws =? 0)%Z || (ws <=? 0)%Z) eqn:Hpos.
  { left. split; [|by eexists]. right; right; right; left.
    exists ws. split; [done|].
    apply orb_true_iff in Hpos as [?%Z.eqb_eq | ?%Z.leb_le]; lia. }
  apply orb_false_iff in Hpos as [_ Hpos%Z.leb_gt].
  destruct (base64Regex_test (audio_data i)) eqn:Htest; simpl.
  2:{ left. split; [|by eexists]. right; left.
      rewrite <- base64Regex_test_spec. by rewrite Htest. }
  destruct (Z.ltb_spec (decoded_length i) 10) as [Hsmall|Hbig].
  { left. split; [|by eexists]. by right; right; right; right; left. }
  destruct (decoded_length i >? 50 * 1024 * 1024)%Z eqn:Hmax.
  { left. split; [|by eexists]. right; right; right; right; right.
    apply Z.gtb_lt in Hmax. lia. }
  right. split.
  - intros [H|[H|[H|[(ws' & Hws' & Hle)|[H|H]]]]]; try done.
    + apply H. by apply base64Regex_test_spec.
    + simplify_eq. lia.
    + lia.
    + apply Z.gt_lt, Z.gtb_lt in H. congruence.
  - exists ws. split; [done|]. rewrite simulate_bucket.
    by rewrite !append_assoc.
Qed.

(** ** The claims on the transcription stub *)

(** C10. transcribeMeeting throws exactly when the input is invalid:
    audio_data empty or outside the base64 pattern, workspace_id absent or
    not positive, audio that decodes to fewer than 10 bytes or to more than
    50 * 1024 * 1024 bytes; on every other input it returns a
    TranscriptResponse. *)
Theorem transcribeMeeting_throws_iff_invalid i :
  ((∃ e, transcribeMeeting i = Throw e) ↔ invalid_input i)
  ∧ (¬ invalid_input i → ∃ r, transcribeMeeting i = Return r).
Proof.
  destruct (transcribeMeeting_cases i)
    as [[Hinv [e He]] | [Hval (ws & _ & Hret)]].
  - split; [split; eauto | done].
  - split; [|eauto]. split; [|done].
    intros [e He]. by rewrite Hret in He.
Qed.

(** C9. On two valid inputs the answers are the workspace prefix
    "[Workspace <workspace_id>] " followed by the fixed text of the size
    bucket of the decoded audio (below 1 KB, 1 KB to below 10 KB, 10 KB or
    more), is_complete holds exactly for audio of 10 KB or more, and with
    the same workspace_id and the same bucket the two answers are equal:
    nothing else of the audio, and no earlier call, enters the answer. *)
Theorem transcribeMeeting_by_bucket i1 i2 :
  ¬ invalid_input i1 →
  ¬ invalid_input i2 →
  ∃ ws1 ws2 r1 r2,
    workspace_id i1 = Some ws1
    ∧ workspace_id i2 = Some ws2
    ∧ transcribeMeeting i1 = Return r1
    ∧ transcribeMeeting i2 = Return r2
    ∧ partial_transcript r1
      = "[Workspace " +:+ pretty ws1 +:+ "] "
        +:+ bucket_text (size_bucket (decoded_length i1))
    ∧ partial_transcript r2
      = "[Workspace " +:+ pretty ws2 +:+ "] "
        +:+ bucket_text (size_bucket (decoded_length i2))
    ∧ (is_complete r1 = true ↔ (10 * 1024 ≤ decoded_length i1)%Z)
    ∧ (is_complete r2 = true ↔ (10 * 1024 ≤ decoded_length i2)%Z)
    ∧ (ws1 = ws2 →
       size_bucket (decoded_length i1) = size_bucket (decoded_length i2) →
       r1 = r2).
Proof.
  intros Hval1 Hval2.
  destruct (transcribeMeeting_cases i1)
    as [[Hinv _] | [_ (ws1 & Hws1 & Hret1)]]; [done|].
  destruct (transcribeMeeting_cases i2)
    as [[Hinv _] | [_ (ws2 & Hws2 & Hret2)]]; [done|].
  eexists ws1, ws2, _, _.
  repeat (split; [eassumption || reflexivity|]). simpl.
  split; [apply bool_decide_eq_true|]. split; [apply bool_decide_eq_true|].
  intros -> Hbucket. by rewrite !bool_decide_large, Hbucket.
Qed.

Lemma transcribeMeeting_by_bucket_witness :
  ∃ ws1 ws2 r1 r2,
    Some 7%Z = Some ws1
    ∧ Some 7%Z = Some ws2
    ∧ transcribeMeeting {| audio_data := "QUJDQUJDQUJDQUJD";
                           workspace_id := Some 7 |} = Return r1
    ∧ transcribeMeeting {| audio_data := "QUJDQUJDQUJDQUJDQUI=";
                           workspace_id := Some 7 |} = Return r2
    ∧ partial_transcript r1
      = "[Workspace " +:+ pretty ws1 +:+ "] "
        +:+ bucket_text (size_bucket 12)
    ∧ partial_transcript r2
      = "[Workspace " +:+ pretty ws2 +:+ "] "
        +:+ bucket_text (size_bucket 14)
    ∧ (is_complete r1 = true ↔ (10 * 1024 ≤ 12)%Z)
    ∧ (is_complete r2 = true ↔ (10 * 1024 ≤ 14)%Z)
    ∧ (ws1 = ws2 → size_bucket 12 = size_bucket 14 → r1 = r2).
Proof.
  apply (transcribeMeeting_by_bucket
           {| audio_data := "QUJDQUJDQUJDQUJD"; workspace_id := Some 7 |}
           {| audio_data := "QUJDQUJDQUJDQUJDQUI="; workspace_id := Some 7 |}).
  - intros [H|[H|[H|[(ws & Hws & Hle)|[H|H]]]]]; try discriminate.
    + apply H. apply base64Regex_test_spec. reflexivity.
    + simpl in Hws. injection Hws as <-. lia.
  - intros [H|[H|[H|[(ws & Hws & Hle)|[H|H]]]]]; try discriminate.
    + apply H. apply base64Regex_test_spec. reflexivity.
    + simpl in Hws. injection Hws as <-. lia.
Defined.

(** ** Further properties of the confirmation coordinator *)

(** The four ways a confirmation of an awaiting event ends, each with the
    store it leaves and the response it gives. *)
Lemma agentConfirm_awaiting_cases rt db k b ev :
  find_agent_event db k = Some ev →
  AgentEvent.status ev = "awaiting_confirmation" →
  let values := task_values rt (AgentEvent.input ev) in
  let ends (db1 : Db) (st : string) (out : object) (er : option object) :=
    agentConfirm rt {| event_id := k; approved := b |} db
    = ((update_agent_events db1 k st out).1,
       Return {| agent_event := set_status_output st out ev;
                 execution_result := er; error := None |}) in
  (b = false ∧ ends db "error" (rejected_output rt) None)
  ∨ (b = true ∧ AgentEvent.action ev ≠ "create_task"
     ∧ ends db "executed"
         (<[ "executed_action" := VStr (AgentEvent.action ev) ]>
            (approved_output rt))
         (Some {[ "success" := VBool true;
                  "message" := VStr ("Action " +:+ AgentEvent.action ev
                                     +:+ " executed successfully") ]}))
  ∨ (b = true ∧ AgentEvent.action ev = "create_task"
     ∧ ∃ f, check_task_values db values = inl f
       ∧ ends db "error"
           (<[ "execution_error" := VStr (failure_message f) ]>
              (approved_output rt))
           (Some {[ "success" := VBool false;
                    "error" := VStr (failure_message f) ]}))
  ∨ (b = true ∧ AgentEvent.action ev = "create_task"
     ∧ ∃ row, check_task_values db values = inr row
       ∧ ends (insert_task db values).1 "executed"
           (<[ "task_id" := VNum (Task.id row) ]>
              (<[ "executed_action" := VStr "task_created" ]>
                 (approved_output rt)))
           (Some {[ "success" := VBool true;
                    "created_task_id" := VNum (Task.id row);
                    "message" := VStr "Task created successfully" ]})).
Proof.
  intros Hfind Hst values ends. subst ends.
  rewrite (agentConfirm_awaiting _ _ _ _ _ Hfind Hst).
  destruct b; simpl.
  - destruct (String.eqb_spec (AgentEvent.action ev) "create_task")
      as [Hact|Hact].
    + destruct (check_task_values db values) as [f|row] eqn:Hrow.
      * right; right; left. split; [done|]. split; [done|].
        exists f. split; [done|].
        rewrite (execute_create_task_throws _ _ _ _
                   (JsError (failure_message f)))
          by (unfold insert_task; fold values; by rewrite Hrow).
        by apply (respond_after_update db k "error").
      * right; right; right. split; [done|]. split; [done|].
        exists row. split; [done|].
        rewrite (execute_create_task_returns _ _ _ _ _ Hrow).
        rewrite (insert_task_returns _ _ _ Hrow). cbn [fst].
        set (db1 := {| agent_events := agent_events db;
                       tasks := _; workspaces := _; tasks_id_seq := _ |}).
        apply (respond_after_update db1 k "executed").
        by rewrite (find_agent_event_ext db db1).
    + right; left. split; [done|]. split; [done|].
      by apply (respond_after_update db k "executed").
  - left. split; [done|].
    by apply (respond_after_update db k "error").
Qed.

(** The same for any call that returns: the event it found awaited
    confirmation and the call ended in one of the four ways. *)
Lemma agentConfirm_returns_cases rt input db db' r :
  agentConfirm rt input db = (db', Return r) →
  ∃ ev db1 st out,
    find_agent_event db (event_id input) = Some ev
    ∧ AgentEvent.status ev = "awaiting_confirmation"
    ∧ db' = (update_agent_events db1 (event_id input) st out).1
    ∧ agent_event r = set_status_output st out ev
    ∧ error r = None
    ∧ ((approved input = false ∧ db1 = db ∧ st = "error"
        ∧ out = rejected_output rt ∧ execution_result r = None)
       ∨ (approved input = true ∧ AgentEvent.action ev ≠ "create_task"
          ∧ db1 = db ∧ st = "executed"
          ∧ out = <[ "executed_action" := VStr (AgentEvent.action ev) ]>
                    (approved_output rt)
          ∧ execution_result r
            = Some {[ "success" := VBool true;
                      "message" := VStr ("Action " +:+ AgentEvent.action ev
                                         +:+ " executed successfully") ]})
       ∨ (approved input = true ∧ AgentEvent.action ev = "create_task"
          ∧ db1 = db ∧ st = "error"
          ∧ ∃ f, check_task_values db
                   (task_values rt (AgentEvent.input ev)) = inl f
            ∧ out = <[ "execution_error" := VStr (failure_message f) ]>
                      (approved_output rt)
            ∧ execution_result r
              = Some {[ "success" := VBool false;
                        "error" := VStr (failure_message f) ]})
       ∨ (approved input = true ∧ AgentEvent.action ev = "create_task"
          ∧ st = "executed"
          ∧ ∃ row, check_task_values db
                     (task_values rt (AgentEvent.input ev)) = inr row
            ∧ db1 = (insert_task db (task_values rt (AgentEvent.input ev))).1
            ∧ out = <[ "task_id" := VNum (Task.id row) ]>
                      (<[ "executed_action" := VStr "task_created" ]>
                         (approved_output rt))
            ∧ execution_result r
              = Some {[ "success" := VBool true;
                        "created_task_id" := VNum (Task.id row);
                        "message" := VStr "Task created successfully" ]})).
Proof.
  intros Hret.
  destruct (agentConfirm_returns_only_awaiting _ _ _ _ _ Hret)
    as (ev & Hfind & Hst).
  destruct input as [k b]; simpl in *.
  destruct (agentConfirm_awaiting_cases rt db k b ev Hfind Hst)
    as [(-> & Hends) | [(-> & Hact & Hends)
       | [(-> & Hact & f & Hf & Hends) | (-> & Hact & row & Hrow & Hends)]]];
    rewrite Hends in Hret; simplify_eq; eexists ev, _, _, _;
    (do 5 (split; [reflexivity || done|])).
  - by left.
  - right; left. by repeat split.
  - right; right; left. repeat (split; [done|]). by exists f.
  - right; right; right. repeat (split; [done|]). by exists row.
Qed.


(** X1. The only errors agentConfirm throws are the two of its guards:
    the event was not found, or it was not awaiting confirmation.  A
    failure of the approved action never reaches the caller as a throw,
    and a call that throws has written nothing. *)
Theorem agentConfirm_throws_only_guards rt input db db' e :
  agentConfirm rt input db = (db', Throw e) →
  db' = db
  ∧ ((find_agent_event db (event_id input) = None
      ∧ e = JsError ("Agent event with id " +:+ pretty (event_id input)
                     +:+ " not found"))
     ∨ (∃ ev, find_agent_event db (event_id input) = Some ev
          ∧ AgentEvent.status ev ≠ "awaiting_confirmation"
          ∧ e = JsError ("Agent event " +:+ pretty (event_id input)
                         +:+ " is not awaiting confirmation (current status: "
                         +:+ AgentEvent.status ev +:+ ")"))).
Proof.
  intros Hthrow.
  destruct (find_agent_event db (event_id input)) as [ev|] eqn:Hfind.
  - destruct (decide (AgentEvent.status ev = "awaiting_confirmation"))
      as [Hst|Hst].
    + destruct input as [k b]; simpl in *.
      destruct (agentConfirm_awaiting_result rt db k b ev Hfind Hst)
        as (db1 & st & out & er & _ & _ & Hret).
      by rewrite Hret in Hthrow.
    + rewrite (agentConfirm_guard_status _ _ _ _ Hfind Hst) in Hthrow.
      simplify_eq. split; [done|]. right. by exists ev.
  - rewrite (agentConfirm_guard_found _ _ _ Hfind) in Hthrow.
    simplify_eq. split; [done|]. by left.
Qed.

Lemma agentConfirm_throws_only_guards_witness :
  Demo.db = Demo.db
  ∧ ((find_agent_event Demo.db 3 = None
      ∧ JsError
          "Agent event 3 is not awaiting confirmation (current status: executed)"
        = JsError ("Agent event with id " +:+ pretty 3 +:+ " not found"))
     ∨ (∃ ev, find_agent_event Demo.db 3 = Some ev
          ∧ AgentEvent.status ev ≠ "awaiting_confirmation"
          ∧ JsError
              "Agent event 3 is not awaiting confirmation (current status: executed)"
            = JsError ("Agent event " +:+ pretty 3
                       +:+ " is not awaiting confirmation (current status: "
                       +:+ AgentEvent.status ev +:+ ")"))).
Proof.
  apply (agentConfirm_throws_only_guards Demo.rt
           {| event_id := 3; approved := false |} Demo.db Demo.db).
  reflexivity.
Defined.

(** X2. In a response, execution_result is there exactly when the call
    approved, the [error] field is never set, and the status of the event
    follows the result: "executed" with success true and a message,
    "error" with success false and an error text; a rejection leaves
    "error" with no result at all. *)
Theorem agentConfirm_result_matches_status rt input db db' r :
  agentConfirm rt input db = (db', Return r) →
  error r = None
  ∧ (execution_result r = None ↔ approved input = false)
  ∧ (approved input = false → AgentEvent.status (agent_event r) = "error")
  ∧ ∀ er, execution_result r = Some er →
      (AgentEvent.status (agent_event r) = "executed"
       ∧ er !! "success" = Some (VBool true)
       ∧ is_Some (er !! "message")
       ∧ er !! "error" = None)
      ∨ (AgentEvent.status (agent_event r) = "error"
         ∧ er !! "success" = Some (VBool false)
         ∧ (∃ m, er !! "error" = Some (VStr m))
         ∧ er !! "message" = None).
Proof.
  intros Hret.
  destruct (agentConfirm_returns_cases _ _ _ _ _ Hret)
    as (ev & db1 & st & out & _ & _ & _ & -> & Herr & Hcases).
  split; [done|].
  destruct Hcases
    as [(Hb & _ & -> & _ & Her) | [(Hb & _ & _ & -> & _ & Her)
       | [(Hb & _ & _ & -> & f & _ & _ & Her)
       | (Hb & _ & -> & row & _ & _ & _ & Her)]]];
    rewrite Her, Hb; simpl.
  - split; [done|]. split; [done|]. by intros er.
  - split; [done|]. split; [done|]. intros er [= <-]. left.
    repeat split; by eauto.
  - split; [done|]. split; [done|]. intros er [= <-]. right.
    repeat split; by eauto.
  - split; [done|]. split; [done|]. intros er [= <-]. left.
    repeat split; by eauto.
Qed.

Lemma agentConfirm_result_matches_status_witness :
  ∃ db' r,
    agentConfirm Demo.rt {| event_id := 4; approved := true |} Demo.db
    = (db', Return r)
    ∧ error r = None
    ∧ (execution_result r = None ↔ true = false)
    ∧ (true = false → AgentEvent.status (agent_event r) = "error")
    ∧ ∀ er, execution_result r = Some er →
        (AgentEvent.status (agent_event r) = "executed"
         ∧ er !! "success" = Some (VBool true)
         ∧ is_Some (er !! "message")
         ∧ er !! "error" = None)
        ∨ (AgentEvent.status (agent_event r) = "error"
           ∧ er !! "success" = Some (VBool false)
           ∧ (∃ m, er !! "error" = Some (VStr m))
           ∧ er !! "message" = None).
Proof.
  eexists _, _. split; [reflexivity|].
  eapply (agentConfirm_result_matches_status Demo.rt
            {| event_id := 4; approved := true |} Demo.db).
  reflexivity.
Defined.

(** Reads of concrete keys in the objects the handler builds. *)
Ltac eval_lookups :=
  repeat match goal with
  | |- context [@lookup string jsval ?M ?L ?k ?m] =>
      let v := eval vm_compute in (@lookup string jsval M L k m) in
      progress change (@lookup string jsval M L k m) with v
  end.

Lemma agentConfirm_throw_unchanged rt input db db' e :
  agentConfirm rt input db = (db', Throw e) → db' = db.
Proof.
  intros Hthrow.
  destruct (find_agent_event db (event_id input)) as [ev|] eqn:Hfind.
  - destruct (decide (AgentEvent.status ev = "awaiting_confirmation"))
      as [Hst|Hst].
    + destruct input as [k b]; simpl in *.
      destruct (agentConfirm_awaiting_result rt db k b ev Hfind Hst)
        as (db1 & st & out & er & _ & _ & Hret).
      by rewrite Hret in Hthrow.
    + rewrite (agentConfirm_guard_status _ _ _ _ Hfind Hst) in Hthrow.
      by simplify_eq.
  - rewrite (agentConfirm_guard_found _ _ _ Hfind) in Hthrow.
    by simplify_eq.
Qed.

(** X3. The output persisted with an event tells the three outcomes
    apart.  A rejection has rejected and rejected_at and none of the
    approval keys.  An approval always has approved and approved_at, has
    executed_action exactly when the status is "executed" and
    execution_error exactly when it is "error"; execution_error is the
    error of the execution_result, and a task_id comes only with
    executed_action "task_created" and is the created_task_id. *)
Theorem agentConfirm_output_tells_outcome rt input db db' r :
  agentConfirm rt input db = (db', Return r) →
  ∃ out,
    AgentEvent.output (agent_event r) = Some out
    ∧ (approved input = false →
       out !! "rejected" = Some (VBool true)
       ∧ out !! "rejected_at" = Some (VDate (TimeValue (now rt)))
       ∧ out !! "approved" = None
       ∧ out !! "executed_action" = None
       ∧ out !! "execution_error" = None)
    ∧ (approved input = true →
       out !! "approved" = Some (VBool true)
       ∧ out !! "approved_at" = Some (VDate (TimeValue (now rt)))
       ∧ out !! "rejected" = None
       ∧ (AgentEvent.status (agent_event r) = "executed"
          ↔ is_Some (out !! "executed_action"))
       ∧ (AgentEvent.status (agent_event r) = "error"
          ↔ is_Some (out !! "execution_error"))
       ∧ out !! "execution_error"
         = execution_result r ≫= (λ er : object, er !! "error")
       ∧ ∀ v, out !! "task_id" = Some v →
           out !! "executed_action" = Some (VStr "task_created")
           ∧ execution_result r ≫= (λ er : object, er !! "created_task_id")
             = Some v).
Proof.
  intros Hret.
  destruct (agentConfirm_returns_cases _ _ _ _ _ Hret)
    as (ev & db1 & st & out & _ & _ & _ & -> & _ & Hcases).
  exists out. split; [done|].
  destruct Hcases
    as [(Hb & _ & -> & -> & Her) | [(Hb & _ & _ & -> & -> & Her)
       | [(Hb & _ & _ & -> & f & _ & -> & Her)
       | (Hb & _ & -> & row & _ & _ & -> & Her)]]];
    rewrite Her, Hb; simpl; (split; [intros ?|intros ?]); try done;
    eval_lookups; repeat split; try done; try (by eauto);
      try (by intros [? ?]).
Qed.

Lemma agentConfirm_output_tells_outcome_witness :
  ∃ db' r,
    agentConfirm Demo.rt {| event_id := 1; approved := true |} Demo.db
    = (db', Return r)
    ∧ AgentEvent.output (agent_event r)
      = Some {[ "approved" := VBool true;
                "approved_at" := VDate (TimeValue 1700000000000);
                "executed_action" := VStr "task_created";
                "task_id" := VNum 1 ]}
    ∧ ∃ out,
        AgentEvent.output (agent_event r) = Some out
        ∧ (true = false →
           out !! "rejected" = Some (VBool true)
           ∧ out !! "rejected_at" = Some (VDate (TimeValue 1700000000000))
           ∧ out !! "approved" = None
           ∧ out !! "executed_action" = None
           ∧ out !! "execution_error" = None)
        ∧ (true = true →
           out !! "approved" = Some (VBool true)
           ∧ out !! "approved_at" = Some (VDate (TimeValue 1700000000000))
           ∧ out !! "rejected" = None
           ∧ (AgentEvent.status (agent_event r) = "executed"
              ↔ is_Some (out !! "executed_action"))
           ∧ (AgentEvent.status (agent_event r) = "error"
              ↔ is_Some (out !! "execution_error"))
           ∧ out !! "execution_error"
             = execution_result r ≫= (λ er : object, er !! "error")
           ∧ ∀ v, out !! "task_id" = Some v →
               out !! "executed_action" = Some (VStr "task_created")
               ∧ execution_result r ≫= (λ er : object, er !! "created_task_id")
                 = Some v).
Proof.
  eexists _, _. split; [reflexivity|]. split; [reflexivity|].
  eapply (agentConfirm_output_tells_outcome Demo.rt
            {| event_id := 1; approved := true |} Demo.db).
  reflexivity.
Defined.



Lemma update_rows_frame (k : Z) st out (rows : list AgentEvent.t) :
  Forall2 (λ r r', same_proposal r r' ∧ (AgentEvent.id r ≠ k → r' = r))
    rows
    ((λ r, if decide (AgentEvent.id r = k)
           then set_status_output st out r else r) <$> rows).
Proof.
  induction rows as [|r rows IH]; [by constructor|].
  rewrite fmap_cons. constructor; [|done].
  destruct (decide (AgentEvent.id r = k)).
  - split; [apply set_status_output_same_proposal | done].
  - by split.
Qed.

(** The store a call leaves: the one it found, or that one with the
    rows of the event's id rewritten, after the Task insert if there was
    one. *)
Lemma agentConfirm_store rt input db :
  (agentConfirm rt input db).1 = db
  ∨ ∃ db1 st out,
      (agentConfirm rt input db).1
      = (update_agent_events db1 (event_id input) st out).1
      ∧ agent_events db1 = agent_events db
      ∧ workspaces db1 = workspaces db.
Proof.
  destruct (agentConfirm rt input db) as [db' [e|r]] eqn:Hcall.
  { left. simpl. by apply (agentConfirm_throw_unchanged _ _ _ _ _ Hcall). }
  right.
  destruct (agentConfirm_returns_cases _ _ _ _ _ Hcall)
    as (ev & db1 & st & out & _ & _ & -> & _ & _ & Hcases).
  exists db1, st, out. split; [done|].
  destruct Hcases
    as [(_ & -> & _) | [(_ & _ & -> & _)
       | [(_ & _ & -> & _) | (_ & _ & _ & row & Hrow & -> & _)]]];
    try done.
  by rewrite (insert_task_returns _ _ _ Hrow).
Qed.

(** X5. Whatever its outcome, a call of agentConfirm adds no event,
    removes none and reorders none; it leaves the id, workspace, agent,
    action and input of every event as they were, leaves every event with
    another id untouched, and never writes to the workspaces. *)
Theorem agentConfirm_frame rt input db :
  workspaces (agentConfirm rt input db).1 = workspaces db
  ∧ Forall2 (λ r r', same_proposal r r'
                     ∧ (AgentEvent.id r ≠ event_id input → r' = r))
      (agent_events db) (agent_events (agentConfirm rt input db).1).
Proof.
  destruct (agentConfirm_store rt input db)
    as [-> | (db1 & st & out & -> & Hev & Hws)].
  - split; [done|]. apply Forall_Forall2_diag, Forall_forall.
    intros r _. by split.
  - split; [done|]. simpl. rewrite Hev. apply update_rows_frame.
Qed.






(** ** Further properties of the transcription stub *)

(** Past the checks of the audio text and of the workspace, the handler
    is its two size checks and the bucket. *)
Lemma transcribeMeeting_checked i ws :
  audio_data i ≠ "" →
  workspace_id i = Some ws →
  (0 < ws)%Z →
  base64Regex_test (audio_data i) = true →
  transcribeMeeting i
  = if (decoded_length i <? 10)%Z
    then Throw (JsError "Audio data too small")
    else if (decoded_length i >? 50 * 1024 * 1024)%Z
    then Throw (JsError "Audio data too large (max 50MB)")
    else Return {| partial_transcript :=
                     "[Workspace " +:+ pretty ws +:+ "] "
                     +:+ bucket_text (size_bucket (decoded_length i));
                   is_complete :=
                     bool_decide (10 * 1024 ≤ decoded_length i)%Z |}.
Proof.
  intros Hne Hws Hpos Htest. unfold transcribeMeeting.
  fold (decoded_length i).
  apply String.eqb_neq in Hne. rewrite Hne, Hws, Htest.
  rewrite (proj2 (Z.eqb_neq ws 0)), (proj2 (Z.leb_gt ws 0)) by lia. simpl.
  destruct (decoded_length i <? 10)%Z; [done|].
  destruct (decoded_length i >? 50 * 1024 * 1024)%Z; [done|].
  rewrite simulate_bucket. by rewrite !append_assoc.
Qed.

(** X7. The checks of transcribeMeeting run in a fixed order and the
    first that fails names the error: "Audio data is required" for empty
    audio_data whatever the rest, then "Valid workspace ID is required",
    then "Invalid base64 audio data", then "Audio data too small", then
    "Audio data too large (max 50MB)".  It throws nothing else. *)
Theorem transcribeMeeting_first_failed_check i :
  (audio_data i = "" →
   transcribeMeeting i = Throw (JsError "Audio data is required"))
  ∧ (audio_data i ≠ "" →
     (workspace_id i = None ∨ ∃ ws, workspace_id i = Some ws ∧ (ws ≤ 0)%Z) →
     transcribeMeeting i = Throw (JsError "Valid workspace ID is required"))
  ∧ (audio_data i ≠ "" →
     (∃ ws, workspace_id i = Some ws ∧ (0 < ws)%Z) →
     (¬ matches_base64_pattern (audio_data i) →
      transcribeMeeting i = Throw (JsError "Invalid base64 audio data"))
     ∧ (matches_base64_pattern (audio_data i) →
        (decoded_length i < 10)%Z →
        transcribeMeeting i = Throw (JsError "Audio data too small"))
     ∧ (matches_base64_pattern (audio_data i) →
        (decoded_length i > 50 * 1024 * 1024)%Z →
        transcribeMeeting i
        = Throw (JsError "Audio data too large (max 50MB)")))
  ∧ (∀ e, transcribeMeeting i = Throw e →
     e ∈ [JsError "Audio data is required";
          JsError "Valid workspace ID is required";
          JsError "Invalid base64 audio data";
          JsError "Audio data too small";
          JsError "Audio data too large (max 50MB)"]).
Proof.
  split; [|split; [|split]].
  - intros Hempty. unfold transcribeMeeting. by rewrite Hempty.
  - intros Hne%String.eqb_neq Hws. unfold transcribeMeeting. rewrite Hne.
    destruct Hws as [-> | (ws & -> & Hle)]; [done|].
    destruct (Z.eqb_spec ws 0); [done|].
    by rewrite (proj2 (Z.leb_le ws 0)) by lia.
  - intros Hne (ws & Hws & Hpos). split; [|split].
    + intros Hpat. unfold transcribeMeeting.
      apply String.eqb_neq in Hne. rewrite Hne, Hws.
      rewrite (proj2 (Z.eqb_neq ws 0)), (proj2 (Z.leb_gt ws 0)) by lia.
      destruct (base64Regex_test (audio_data i)) eqn:Htest; [|done].
      by apply base64Regex_test_spec in Htest.
    + intros Hpat%base64Regex_test_spec Hsmall.
      rewrite (transcribeMeeting_checked i ws) by done.
      by rewrite (proj2 (Z.ltb_lt _ _)) by done.
    + intros Hpat%base64Regex_test_spec Hbig.
      rewrite (transcribeMeeting_checked i ws) by done.
      rewrite (proj2 (Z.ltb_ge _ _)) by lia.
      by rewrite (proj2 (Z.gtb_lt _ _)) by lia.
  - intros e. unfold transcribeMeeting. repeat case_match;
      intros [= <-]; set_solver.
Qed.

Lemma pattern_not_empty body pad : body ≠ "" → body +:+ pad ≠ "".
Proof. by destruct body. Qed.

Lemma pattern_accepted body pad :
  body ≠ "" →
  string_forall base64_class body = true →
  (pad = "" ∨ pad = "=" ∨ pad = "==") →
  base64Regex_test (body +:+ pad) = true.
Proof. intros. apply base64Regex_test_spec. by exists body, pad. Qed.

(** X8. For audio_data of the accepted form, what the handler answers is
    decided by the number n of characters before the padding: up to 13
    characters are "Audio data too small"; 14 to 1365 give the short text,
    1366 to 13653 the medium text, both incomplete; 13654 to 69905067 give
    the full text, complete; 69905068 or more are "Audio data too large
    (max 50MB)". *)
Theorem transcribeMeeting_by_character_count body pad ws :
  body ≠ "" →
  string_forall base64_class body = true →
  (pad = "" ∨ pad = "=" ∨ pad = "==") →
  (0 < ws)%Z →
  let n := Z.of_nat (String.length body) in
  let i := {| audio_data := body +:+ pad; workspace_id := Some ws |} in
  let answer text complete :=
    Return {| partial_transcript :=
                "[Workspace " +:+ pretty ws +:+ "] " +:+ text;
              is_complete := complete |} in
  ((n ≤ 13)%Z →
   transcribeMeeting i = Throw (JsError "Audio data too small"))
  ∧ ((14 ≤ n ≤ 1365)%Z → transcribeMeeting i = answer text_small false)
  ∧ ((1366 ≤ n ≤ 13653)%Z → transcribeMeeting i = answer text_medium false)
  ∧ ((13654 ≤ n ≤ 69905067)%Z → transcribeMeeting i = answer text_large true)
  ∧ ((69905068 ≤ n)%Z →
     transcribeMeeting i = Throw (JsError "Audio data too large (max 50MB)")).
Proof.
  intros Hne Hall Hpad Hpos n i answer.
  assert (transcribeMeeting i
          = if (3 * n / 4 <? 10)%Z
            then Throw (JsError "Audio data too small")
            else if (3 * n / 4 >? 50 * 1024 * 1024)%Z
            then Throw (JsError "Audio data too large (max 50MB)")
            else answer (bucket_text (size_bucket (3 * n / 4)))
                        (bool_decide (10 * 1024 ≤ 3 * n / 4)%Z)) as ->.
  { rewrite (transcribeMeeting_checked i ws);
      [|by apply pattern_not_empty|done|done|by apply pattern_accepted].
    subst i. by rewrite (decoded_length_pattern body pad (Some ws) Hall Hpad). }
  rewrite Z.gtb_ltb. unfold size_bucket.
  assert (0 ≤ n)%Z as Hn0 by lia. clearbody n.
  repeat split; intros Hn;
    repeat match goal with
    | |- context [(?a <? ?b)%Z] =>
        destruct (Z.ltb_spec a b); try (Z.div_mod_to_equations; lia)
    end;
    try done;
    (rewrite bool_decide_eq_false_2; [done|Z.div_mod_to_equations; lia])
    || (rewrite bool_decide_eq_true_2; [done|Z.div_mod_to_equations; lia]).
Qed.

Lemma transcribeMeeting_by_character_count_witness :
  let i := {| audio_data := "QUJDQUJDQUJDQUJD" +:+ "==";
              workspace_id := Some 7%Z |} in
  let answer text complete :=
    Return {| partial_transcript :=
                "[Workspace " +:+ pretty 7%Z +:+ "] " +:+ text;
              is_complete := complete |} in
  ((16 ≤ 13)%Z →
   transcribeMeeting i = Throw (JsError "Audio data too small"))
  ∧ ((14 ≤ 16 ≤ 1365)%Z → transcribeMeeting i = answer text_small false)
  ∧ ((1366 ≤ 16 ≤ 13653)%Z → transcribeMeeting i = answer text_medium false)
  ∧ ((13654 ≤ 16 ≤ 69905067)%Z → transcribeMeeting i = answer text_large true)
  ∧ ((69905068 ≤ 16)%Z →
     transcribeMeeting i = Throw (JsError "Audio data too large (max 50MB)")).
Proof.
  apply (transcribeMeeting_by_character_count "QUJDQUJDQUJDQUJD" "==" 7).
  - discriminate.
  - reflexivity.
  - right; right; reflexivity.
  - lia.
Defined.

(** X9. Nothing of the audio but the number of characters before the
    padding enters the outcome: two inputs of the accepted form with the
    same workspace_id and as many characters before the padding have the
    same outcome, response or error, whatever the characters are and
    whether the padding is none, "=" or "==". *)
Theorem transcribeMeeting_content_blind body1 pad1 body2 pad2 ws :
  body1 ≠ "" → body2 ≠ "" →
  string_forall base64_class body1 = true →
  string_forall base64_class body2 = true →
  (pad1 = "" ∨ pad1 = "=" ∨ pad1 = "==") →
  (pad2 = "" ∨ pad2 = "=" ∨ pad2 = "==") →
  String.length body1 = String.length body2 →
  transcribeMeeting {| audio_data := body1 +:+ pad1; workspace_id := ws |}
  = transcribeMeeting {| audio_data := body2 +:+ pad2; workspace_id := ws |}.
Proof.
  intros Hne1 Hne2 Hall1 Hall2 Hpad1 Hpad2 Hlen.
  pose proof (decoded_length_pattern _ _ ws Hall1 Hpad1) as Hd1.
  pose proof (decoded_length_pattern _ _ ws Hall2 Hpad2) as Hd2.
  rewrite Hlen, <- Hd2 in Hd1.
  unfold transcribeMeeting.
  fold (decoded_length {| audio_data := body1 +:+ pad1; workspace_id := ws |}).
  fold (decoded_length {| audio_data := body2 +:+ pad2; workspace_id := ws |}).
  rewrite Hd1. simpl.
  rewrite !pattern_accepted by done.
  rewrite (proj2 (String.eqb_neq _ _) (pattern_not_empty _ pad1 Hne1)).
  by rewrite (proj2 (String.eqb_neq _ _) (pattern_not_empty _ pad2 Hne2)).
Qed.

Lemma transcribeMeeting_content_blind_witness :
  transcribeMeeting {| audio_data := "QUJDQUJDQUJDQUJD" +:+ "";
                       workspace_id := Some 7%Z |}
  = transcribeMeeting {| audio_data := "AAAAAAAA////++++" +:+ "==";
                         workspace_id := Some 7%Z |}.
Proof.
  apply (transcribeMeeting_content_blind
           "QUJDQUJDQUJDQUJD" "" "AAAAAAAA////++++" "==" (Some 7%Z));
    try discriminate; try reflexivity.
  - by left.
  - right; right; reflexivity.
Defined.

Lemma string_forall_In (P : ascii → bool) s c :
  string_forall P s = true → In c (list_ascii_of_string s) → P c = true.
Proof.
  induction s as [|x s IH]; simpl; [done|].
  intros [Hx Hs]%andb_true_iff [<- | Hin]; [done | by apply IH].
Qed.

Lemma pattern_characters s :
  matches_base64_pattern s →
  string_forall (λ c, base64_class c || Ascii.eqb c "="%char) s = true.
Proof.
  intros (body & pad & -> & _ & Hall & Hpad).
  induction body as [|c body IH].
  - by destruct Hpad as [-> | [-> | ->]].
  - simpl in Hall. apply andb_true_iff in Hall as [Hc Hall].
    change (String c body +:+ pad) with (String c (body +:+ pad)).
    simpl. rewrite Hc; simpl. by apply IH.
Qed.

(** X10. One character outside [A-Za-z0-9+/=] anywhere in audio_data
    makes the request fail with "Invalid base64 audio data" (given a valid
    workspace id): line breaks, blanks and the URL-safe characters [-] and
    [_] are all refused, though the decoder itself would pass over the
    former and read the latter. *)
Theorem transcribeMeeting_refuses_foreign_character i ws c :
  workspace_id i = Some ws →
  (0 < ws)%Z →
  In c (list_ascii_of_string (audio_data i)) →
  base64_class c = false →
  c ≠ "="%char →
  transcribeMeeting i = Throw (JsError "Invalid base64 audio data").
Proof.
  intros Hws Hpos Hin Hclass Hpad.
  assert (audio_data i ≠ "") as Hne%String.eqb_neq
    by (intros Hempty; by rewrite Hempty in Hin).
  assert (base64Regex_test (audio_data i) = false) as Htest.
  { destruct (base64Regex_test (audio_data i)) eqn:Htest; [|done].
    apply base64Regex_test_spec, pattern_characters in Htest.
    pose proof (string_forall_In _ _ _ Htest Hin) as Hc. simpl in Hc.
    rewrite Hclass in Hc. simpl in Hc. by apply Ascii.eqb_eq in Hc. }
  unfold transcribeMeeting. rewrite Hne, Hws, Htest.
  by rewrite (proj2 (Z.eqb_neq ws 0)), (proj2 (Z.leb_gt ws 0)) by lia.
Qed.

Lemma transcribeMeeting_refuses_foreign_character_witness :
  transcribeMeeting {| audio_data := "QUJDQUJD-UJDQUJD";
                       workspace_id := Some 7%Z |}
  = Throw (JsError "Invalid base64 audio data")
  ∧ base64_value "-"%char = Some 62%Z.
Proof.
  split; [|reflexivity].
  apply (transcribeMeeting_refuses_foreign_character
           {| audio_data := "QUJDQUJD-UJDQUJD"; workspace_id := Some 7%Z |}
           7 "-"%char).
  - reflexivity.
  - lia.
  - simpl. tauto.
  - reflexivity.
  - discriminate.
Defined.

(** ** Runs of confirmations *)

Lemma agentConfirm_keeps_decided rt input db k ev :
  find_agent_event db k = Some ev →
  AgentEvent.status ev ≠ "awaiting_confirmation" →
  find_agent_event (agentConfirm rt input db).1 k = Some ev.
Proof.
  intros Hfind Hst.
  destruct (decide (event_id input = k)) as [<- | Hne].
  - by rewrite (agentConfirm_guard_status _ _ _ _ Hfind Hst).
  - destruct (agentConfirm_store rt input db)
      as [-> | (db1 & st & out & -> & Hev & _)]; [done|].
    unfold find_agent_event.
    rewrite (select_update_ne db1 (event_id input) st out k)
      by congruence.
    unfold find_agent_event, select_agent_events in *. by rewrite Hev.
Qed.

(** X11. An event that is past awaiting confirmation is never written
    again: after any run of confirm calls, on any ids, with either
    decision, the store still gives that event with the same status and
    the same output. *)
Theorem decided_event_is_final calls db k ev :
  find_agent_event db k = Some ev →
  AgentEvent.status ev ≠ "awaiting_confirmation" →
  find_agent_event (confirm_all calls db) k = Some ev.
Proof.
  intros Hfind Hst. revert db Hfind.
  induction calls as [|[rt input] calls IH]; intros db Hfind; [done|].
  apply IH. by apply agentConfirm_keeps_decided.
Qed.

Lemma decided_event_is_final_witness :
  find_agent_event
    (confirm_all [(Demo.rt, {| event_id := 3; approved := true |});
                  (Demo.rt, {| event_id := 1; approved := true |});
                  (Demo.rt, {| event_id := 3; approved := false |});
                  (Demo.rt, {| event_id := 1; approved := false |})]
       Demo.db) 3
  = Some Demo.ev_done.
Proof.
  apply (decided_event_is_final _ Demo.db 3 Demo.ev_done).
  - reflexivity.
  - simpl. discriminate.
Defined.

Lemma agentConfirm_tasks_step rt input db :
  tasks (agentConfirm rt input db).1 = tasks db
  ∨ (approved input = true
     ∧ ∃ t, tasks (agentConfirm rt input db).1 = (tasks db ++ [t])%list).
Proof.
  destruct (agentConfirm rt input db) as [db' [e|r]] eqn:Hcall; simpl.
  { left. by rewrite (agentConfirm_throw_unchanged _ _ _ _ _ Hcall). }
  destruct (agentConfirm_returns_cases _ _ _ _ _ Hcall)
    as (ev & db1 & st & out & _ & _ & -> & _ & _ & Hcases).
  destruct Hcases
    as [(_ & -> & _) | [(_ & _ & -> & _)
       | [(_ & _ & -> & _) | (Hb & _ & _ & row & Hrow & -> & _)]]];
    [by left..|].
  right. split; [done|]. exists row.
  by rewrite (insert_task_returns _ _ _ Hrow).
Qed.

(** X12. Confirmations never delete or change a Task: after any run of
    confirm calls the Task table starts with the Tasks it had, in their
    places, and has grown by no more than the number of approving
    calls. *)
Theorem tasks_only_grow calls db :
  tasks db `prefix_of` tasks (confirm_all calls db)
  ∧ (length (tasks (confirm_all calls db))
     ≤ length (tasks db)
       + length (filter (λ call, approved call.2 = true) calls))%nat.
Proof.
  revert db. induction calls as [|[rt input] calls IH]; intros db.
  { split; [done | simpl; lia]. }
  destruct (IH (agentConfirm rt input db).1) as [Hpre Hlen].
  change (confirm_all ((rt, input) :: calls) db)
    with (confirm_all calls (agentConfirm rt input db).1).
  rewrite filter_cons. simpl.
  destruct (agentConfirm_tasks_step rt input db) as [Heq | (Hb & t & Heq)];
    rewrite Heq in Hpre, Hlen.
  - split; [done|]. case_decide; simpl; lia.
  - split.
    + etrans; [|exact Hpre]. by apply prefix_app_r.
    + rewrite decide_True by done. rewrite length_app in Hlen.
      simpl in *. lia.
Qed.
